(** * Schema fields of the datastore (packages/datastore/src/fields.ts)

    A shallow embedding of the field classes ([BaseField], [ListField],
    [MapField], [TextField], [ValueField]), of the [Field] factory
    namespace and of the [MapField.IChange] record, with the properties
    the specification states about them.  The classes are embedded
    twice: with fields as values, and, in [Store], with objects reached
    by reference and assignments as writes; the two are shown to
    agree. *)

From stdpp Require Import base option list strings gmap fin_maps.
From Stdlib Require Import ZArith.

Open Scope string_scope.
Open Scope list_scope.

(** ** JavaScript values *)

(** The run-time values that reach this file: [undefined], and the
    [ReadonlyJSONValue]s of [@phosphor/coreutils].  A number is kept as an
    integer: the only number literals of the source and of the
    specification are [0] and [42]. *)
#[warnings="-register-all"]
Inductive JSValue : Type :=
| JSUndefined
| JSNull
| JSBoolean (b : bool)
| JSNumber (n : Z)
| JSString (s : string)
| JSArray (items : list JSValue)
| JSObject (props : list (string * JSValue)).

(** An options object: its own enumerable properties.  A key can be
    present and hold [JSUndefined]. *)
Abbreviation Options := (gmap string JSValue).

(** [o.k]: a missing property reads as [undefined]. *)
Definition prop (o : Options) (k : string) : JSValue :=
  default JSUndefined (o !! k).

(** [{ ...defaults, ...options }]: the properties of [options] are copied
    over the literal's own. *)
Definition spread (defaults options : Options) : Options :=
  options ∪ defaults.

(** A parameter declared [options = {}]: the default is taken when the
    argument is omitted, that is [undefined] ([None]).  The argument of
    this model is an options object or an omitted argument; [null] is
    treated in [Store] below. *)
Definition default_param (arg : option Options) : Options :=
  default ∅ arg.

(** ** Completions *)

Inductive JSError : Type :=
| TypeError.

Inductive Completion (A : Type) : Type :=
| Return (a : A)
| Throw (e : JSError).
Arguments Return {A} a.
Arguments Throw {A} e.

Definition is_throw {A} (c : Completion A) : bool :=
  match c with Throw _ => true | Return _ => false end.

(** ** Fields *)

(** The instance properties [BaseField] declares.  [ValueType] and
    [ChangeType] are declared without initializer and never assigned: they
    have no run-time presence.  The declared types of [undoable] and
    [description] are not enforced at run time, so they hold a [JSValue]. *)
Record BaseField : Type := mkBaseField {
  undoable : JSValue;
  description : JSValue;
  uuid : string
}.

(** [type Field = ListField | MapField | TextField | ValueField]. *)
Inductive Field : Type :=
| ListField (base : BaseField)
| MapField (base : BaseField)
| TextField (base : BaseField)
| ValueField (base : BaseField) (value : JSValue).

Definition base_of (f : Field) : BaseField :=
  match f with
  | ListField b | MapField b | TextField b | ValueField b _ => b
  end.

(** The [type] getter of each class. *)
Definition type (f : Field) : string :=
  match f with
  | ListField _ => "list"
  | MapField _ => "map"
  | TextField _ => "text"
  | ValueField _ _ => "value"
  end.

(** The [value] member: declared by [ValueField] only. *)
Definition value_of (f : Field) : JSValue :=
  match f with
  | ValueField _ v => v
  | _ => JSUndefined
  end.

(** ** Construction *)

Section Construction.

(** [UUID.uuid4] of [@phosphor/coreutils] is consumed as a service: a
    call takes the state of the process-wide source and returns a token
    and the next state. *)
Context {Rng : Type} (uuid4 : Rng → string * Rng).

(** Computations that call the service and may throw. *)
Definition M (A : Type) : Type := Rng → Completion A * Rng.

Definition ret {A} (a : A) : M A := λ g, (Return a, g).

Definition throw {A} (e : JSError) : M A := λ g, (Throw e, g).

Definition bind {A B} (m : M A) (k : A → M B) : M B :=
  λ g, match m g with
       | (Return a, g') => k a g'
       | (Throw e, g') => (Throw e, g')
       end.

Definition UUID_uuid4 : M string :=
  λ g, let (t, g') := uuid4 g in (Return t, g').

(** [options.k] on an argument that may be [undefined]. *)
Definition member (arg : option Options) (k : string) : M JSValue :=
  match arg with
  | Some o => ret (prop o k)
  | None => throw TypeError
  end.

Notation "'let*' x ':=' m 'in' k" := (bind m (λ x, k))
  (at level 10, x name, m at level 100, k at level 200).

(** [BaseField]'s constructor: the initializer of [uuid] runs, then the
    body. *)
Definition BaseField_constructor (arg : option Options) : M BaseField :=
  let options := default_param arg in
  let* u := UUID_uuid4 in
  let opts :=
    spread {[ "undoable" := JSBoolean true; "description" := JSString "" ]}
           options in
  ret {| undoable := prop opts "undoable";
         description := prop opts "description";
         uuid := u |}.

Definition ListField_constructor (arg : option Options) : M Field :=
  let options := default_param arg in
  let* b := BaseField_constructor (Some options) in
  ret (ListField b).

Definition MapField_constructor (arg : option Options) : M Field :=
  let options := default_param arg in
  let* b := BaseField_constructor (Some options) in
  ret (MapField b).

Definition TextField_constructor (arg : option Options) : M Field :=
  let options := default_param arg in
  let* b := BaseField_constructor (Some options) in
  ret (TextField b).

(** [ValueField]'s parameter has no default: [super(options)] runs
    first, then [options.value] is read. *)
Definition ValueField_constructor (arg : option Options) : M Field :=
  let* b := BaseField_constructor arg in
  let* v := member arg "value" in
  ret (ValueField b v).

End Construction.

(** ** The [Field] namespace *)

Module Field.
Section Factories.

Context {Rng : Type} (uuid4 : Rng → string * Rng).

Definition Boolean (arg : option Options) : M Field :=
  let options := default_param arg in
  ValueField_constructor uuid4
    (Some (spread {[ "value" := JSBoolean false ]} options)).

Definition Number (arg : option Options) : M Field :=
  let options := default_param arg in
  ValueField_constructor uuid4
    (Some (spread {[ "value" := JSNumber 0 ]} options)).

Definition String (arg : option Options) : M Field :=
  let options := default_param arg in
  ValueField_constructor uuid4
    (Some (spread {[ "value" := JSString "" ]} options)).

Definition List (arg : option Options) : M Field :=
  let options := default_param arg in
  ListField_constructor uuid4 (Some options).

Definition Map (arg : option Options) : M Field :=
  let options := default_param arg in
  MapField_constructor uuid4 (Some options).

Definition Text (arg : option Options) : M Field :=
  let options := default_param arg in
  TextField_constructor uuid4 (Some options).

Definition Value (arg : option Options) : M Field :=
  ValueField_constructor uuid4 arg.

End Factories.
End Field.

(** ** The process: field instances and the calls of this layer *)

(** The entry points that create a field: the four [new] expressions and
    the seven factory functions. *)
Inductive Ctor : Type :=
| NewListField | NewMapField | NewTextField | NewValueField
| CallBoolean | CallNumber | CallString
| CallList | CallMap | CallText | CallValue.

(** The members a caller can read on a field. *)
Inductive Member : Type :=
| MType | MUndoable | MDescription | MUuid | MValue.

Inductive Call : Type :=
| Create (c : Ctor) (arg : option Options)
| Read (r : nat) (m : Member).

Inductive Answer : Type :=
| Ref (r : nat)
| Val (v : JSValue).

Definition read_member (f : Field) (m : Member) : JSValue :=
  match m with
  | MType => JSString (type f)
  | MUndoable => undoable (base_of f)
  | MDescription => description (base_of f)
  | MUuid => JSString (uuid (base_of f))
  | MValue => value_of f
  end.

Section Process.

Context {Rng : Type} (uuid4 : Rng → string * Rng).

(** The field instances alive in the process, in order of creation (an
    instance is named by its position), and the state of the identity
    source. *)
Record World : Type := mkWorld {
  heap : list Field;
  rng : Rng
}.

Definition construct (c : Ctor) : option Options → M Field :=
  match c with
  | NewListField => ListField_constructor uuid4
  | NewMapField => MapField_constructor uuid4
  | NewTextField => TextField_constructor uuid4
  | NewValueField => ValueField_constructor uuid4
  | CallBoolean => Field.Boolean uuid4
  | CallNumber => Field.Number uuid4
  | CallString => Field.String uuid4
  | CallList => Field.List uuid4
  | CallMap => Field.Map uuid4
  | CallText => Field.Text uuid4
  | CallValue => Field.Value uuid4
  end.

(** One call.  A constructor that throws leaves no instance behind, but
    the identity it drew is spent.  A position that names no instance
    stands for [undefined], whose members cannot be read. *)
Definition step (c : Call) (w : World) : Completion Answer * World :=
  match c with
  | Create k arg =>
      match construct k arg (rng w) with
      | (Return f, g) =>
          (Return (Ref (length (heap w))),
           {| heap := heap w ++ [f]; rng := g |})
      | (Throw e, g) => (Throw e, {| heap := heap w; rng := g |})
      end
  | Read r m =>
      match heap w !! r with
      | Some f => (Return (Val (read_member f m)), w)
      | None => (Throw TypeError, w)
      end
  end.

Definition run (cs : list Call) (w : World) : World :=
  foldl (λ w c, snd (step c w)) w cs.

(** The first [n] tokens the source issues from state [g], and the state
    it is left in. *)
Fixpoint tokens (g : Rng) (n : nat) : list string :=
  match n with
  | O => []
  | S n => let (t, g') := uuid4 g in t :: tokens g' n
  end.

Fixpoint advance (g : Rng) (n : nat) : Rng :=
  match n with
  | O => g
  | S n => advance (snd (uuid4 g)) n
  end.


(** The identities of the instances alive are, in order, among the
    tokens the source has issued so far. *)
Definition issued_so_far (g0 : Rng) (w : World) : Prop :=
  ∃ n, rng w = advance g0 n ∧
       (uuid ∘ base_of <$> heap w) `sublist_of` tokens g0 n.

End Process.

Arguments World : clear implicits.

(** A deterministic identity source, a counter, to run the definitions
    on: the [n]-th token is [n + 1] letters long. *)
Fixpoint counter_token (n : nat) : string :=
  match n with
  | O => "u"
  | S n => String.append "u" (counter_token n)
  end.

Definition counter_uuid4 (n : nat) : string * nat :=
  (counter_token n, S n).



(** ** Change records of a map field *)

Module MapField.
Section Change.

(** [T extends ReadonlyJSONValue]: the values the map holds.  A JSON
    value is never [undefined], so [T | undefined] is [option T]. *)
Context {T : Type}.

(** [MapField.IChange<T>]. *)
Record IChange : Type := mkIChange {
  previous : gmap string (option T);
  current : gmap string (option T)
}.

(** Modelled from the spec: the mutable [Map] of [./map] and the engine
    that replays a change are not in this file.  Applying one side of a
    change writes each key's entry back and deletes the keys it marks
    absent. *)
Definition apply_entries (entries : gmap string (option T))
    (state : gmap string T) : gmap string T :=
  map_fold (λ k entry acc,
              match entry with
              | Some v => <[k := v]> acc
              | None => delete k acc
              end) state entries.

(** Modelled from the spec: [change] is a record of the mutation that
    took the map from [before] to [after]: [previous] and [current] are
    parallel, each maps a changed key to its value at that point, or to
    absent, and a key in neither is unchanged. *)
Definition records (change : IChange)
    (before after : gmap string T) : Prop :=
  dom (previous change) = dom (current change) ∧
  (∀ k entry, previous change !! k = Some entry → entry = before !! k) ∧
  (∀ k entry, current change !! k = Some entry → entry = after !! k) ∧
  (∀ k, previous change !! k = None → after !! k = before !! k).

(** Modelled from the spec: a mutation given by the entries to set and to
    remove, with the change it reports. *)
Definition update (items : gmap string (option T))
    (state : gmap string T) : gmap string T * IChange :=
  (apply_entries items state,
   {| previous := map_imap (λ k _, Some (state !! k)) items;
      current := items |}).

End Change.
Arguments IChange : clear implicits.
End MapField.

(** ** Closed forms, used to state what construction returns *)

(** What [BaseField]'s constructor stores for the options [o] and the
    token [t]. *)
Definition base_for (o : Options) (t : string) : BaseField :=
  {| undoable := default (JSBoolean true) (o !! "undoable");
     description := default (JSString "") (o !! "description");
     uuid := t |}.

(** The options restricted to the keys [BaseField.IOptions] declares. *)
Definition recognized (o : Options) : Options :=
  filter (λ kv, kv.1 = "undoable" ∨ kv.1 = "description") o.

(** The discriminant each entry point is documented to produce. *)
Definition kind_of (c : Ctor) : string :=
  match c with
  | NewListField | CallList => "list"
  | NewMapField | CallMap => "map"
  | NewTextField | CallText => "text"
  | NewValueField | CallValue | CallBoolean | CallNumber | CallString =>
      "value"
  end.

(** [ValueField]'s constructor and [Field.Value] declare [options]
    without a default; every other entry point can be called with no
    argument. *)
Definition argument_given (c : Ctor) (arg : option Options) : bool :=
  match c, arg with
  | (NewValueField | CallValue), None => false
  | _, _ => true
  end.

(** The [value] member each entry point leaves on the field it builds
    from the options [o]. *)
Definition value_for (c : Ctor) (o : Options) : JSValue :=
  match c with
  | NewValueField | CallValue => prop o "value"
  | CallBoolean => default (JSBoolean false) (o !! "value")
  | CallNumber => default (JSNumber 0) (o !! "value")
  | CallString => default (JSString "") (o !! "value")
  | NewListField | CallList | NewMapField | CallMap
  | NewTextField | CallText => JSUndefined
  end.

(** ** Counting the calls of a run *)

(** The calls that construct: each enters [BaseField]'s constructor. *)
Fixpoint constructions (cs : list Call) : nat :=
  match cs with
  | [] => 0
  | Create _ _ :: cs => S (constructions cs)
  | Read _ _ :: cs => constructions cs
  end.

(** The constructing calls that are given the argument their entry point
    declares. *)
Fixpoint completed (cs : list Call) : nat :=
  match cs with
  | [] => 0
  | Create c arg :: cs =>
      (if argument_given c arg then 1 else 0) + completed cs
  | Read _ _ :: cs => completed cs
  end.

Definition call_ok (c : Call) : bool :=
  match c with
  | Create k arg => argument_given k arg
  | Read _ _ => true
  end.

(** The options restricted to the three keys some constructor of the file
    reads. *)
Definition kept (o : Options) : Options :=
  filter (λ kv, kv.1 = "undoable" ∨ kv.1 = "description" ∨ kv.1 = "value") o.

(** ** Field instances as objects of a store *)

(** The same constructors and factories, one level down: objects live in
    a store and are reached by reference, an assignment [this.k = v]
    is a write to the store, and an object literal is an allocation.
    This is the level at which a write to an object that exists can be
    told from the creation of a new one. *)
Module Store.

(** A value as held at run time: a primitive, or a reference to an
    object (an options object, an array, a field instance). *)
Inductive Val : Type :=
| VUndefined
| VNull
| VBoolean (b : bool)
| VNumber (n : Z)
| VString (s : string)
| VRef (l : nat).

(** The prototype of an object: [Object.prototype] for the data of the
    caller and for the literals of this file, or that of a field class. *)
Inductive Class : Type :=
| PlainObject
| ListFieldClass
| MapFieldClass
| TextFieldClass
| ValueFieldClass.

(** An object: its prototype and its own enumerable data properties. *)
Record Obj : Type := mkObj {
  class : Class;
  props : gmap string Val
}.

(** What is passed for [options]: nothing (or [undefined]), [null], or
    an object.  These are the values the declared parameter types admit,
    the first two when null checks are off. *)
Inductive Arg : Type :=
| Omitted
| Null
| Object (l : nat).

(** The [type] accessor of each field class: a getter, no setter. *)
Definition type_getter (c : Class) : option string :=
  match c with
  | PlainObject => None
  | ListFieldClass => Some "list"
  | MapFieldClass => Some "map"
  | TextFieldClass => Some "text"
  | ValueFieldClass => Some "value"
  end.

(** [o.k] for the keys this file reads ([type], [undoable],
    [description], [uuid], [value]): the own property if there is one,
    else the getter of the class for [type], else [undefined]. *)
Definition read (o : Obj) (k : string) : Val :=
  match props o !! k with
  | Some v => v
  | None =>
      match type_getter (class o) with
      | Some t => if decide (k = "type") then VString t else VUndefined
      | None => VUndefined
      end
  end.

Definition member_key (m : Member) : string :=
  match m with
  | MType => "type"
  | MUndoable => "undoable"
  | MDescription => "description"
  | MUuid => "uuid"
  | MValue => "value"
  end.

(** The own enumerable properties a spread copies out of [a]: none out
    of [undefined] or [null]. *)
Definition arg_props (objs : list Obj) (a : Arg) : gmap string Val :=
  match a with
  | Object l => from_option props ∅ (objs !! l)
  | Omitted | Null => ∅
  end.

(** The calls of this layer. *)
Inductive Call : Type :=
| Create (c : Ctor) (a : Arg)
| Read (l : nat) (m : Member).

(** What a caller may do besides: assign to a property of an object it
    holds, in code that is not checked against [readonly]. *)
Inductive Event : Type :=
| Layer (c : Call)
| Write (l : nat) (k : string) (v : Val).

Inductive Answer : Type :=
| Ref (l : nat)
| Got (v : Val).

Section WithService.

Context {Rng : Type} (uuid4 : Rng → string * Rng).

(** The store: the objects in order of allocation (an object is named
    by its position) and the state of the identity source. *)
Record Heap : Type := mkHeap {
  objects : list Obj;
  source : Rng
}.

Definition H (A : Type) : Type := Heap → Completion A * Heap.

Definition ret {A} (a : A) : H A := λ h, (Return a, h).

Definition throw {A} (e : JSError) : H A := λ h, (Throw e, h).

Definition bind {A B} (m : H A) (k : A → H B) : H B :=
  λ h, match m h with
       | (Return a, h') => k a h'
       | (Throw e, h') => (Throw e, h')
       end.

Notation "'let*' x ':=' m 'in' k" := (bind m (λ x, k))
  (at level 10, x name, m at level 100, k at level 200).

(** A new object, after all the others. *)
Definition alloc (o : Obj) : H nat :=
  λ h, (Return (length (objects h)),
        {| objects := objects h ++ [o]; source := source h |}).

Definition UUID_uuid4 : H string :=
  λ h, let (t, g) := uuid4 (source h) in
       (Return t, {| objects := objects h; source := g |}).

(** [l.k = v] on a data property. *)
Definition assign (l : nat) (k : string) (v : Val) : H unit :=
  λ h, (Return (),
        {| objects := alter (λ o, mkObj (class o) (<[k := v]> (props o)))
                            l (objects h);
           source := source h |}).

(** [a.k]: a [TypeError] on [undefined] and on [null]. *)
Definition member (a : Arg) (k : string) : H Val :=
  λ h, match a with
       | Object l =>
           match objects h !! l with
           | Some o => (Return (read o k), h)
           | None => (Throw TypeError, h)
           end
       | Omitted | Null => (Throw TypeError, h)
       end.

(** A parameter declared [options = {}]: the literal is evaluated, a new
    object, when the argument is [undefined]; [null] is passed on. *)
Definition default_param (a : Arg) : H Arg :=
  match a with
  | Omitted =>
      let* l := alloc (mkObj PlainObject ∅) in
      ret (Object l)
  | Null | Object _ => ret a
  end.

(** [{ ...defaults, ...a }]: a new object. *)
Definition literal (defaults : gmap string Val) (a : Arg) : H nat :=
  λ h, alloc (mkObj PlainObject (arg_props (objects h) a ∪ defaults)) h.

(** [BaseField]'s constructor, run on [this]. *)
Definition BaseField_constructor (this : nat) (arg : Arg) : H unit :=
  let* options := default_param arg in
  let* u := UUID_uuid4 in
  let* _ := assign this "uuid" (VString u) in
  let* opts :=
    literal {[ "undoable" := VBoolean true; "description" := VString "" ]}
            options in
  let* a := member (Object opts) "undoable" in
  let* _ := assign this "undoable" a in
  let* b := member (Object opts) "description" in
  assign this "description" b.

Definition ListField_constructor (this : nat) (arg : Arg) : H unit :=
  let* options := default_param arg in
  BaseField_constructor this options.

Definition MapField_constructor (this : nat) (arg : Arg) : H unit :=
  let* options := default_param arg in
  BaseField_constructor this options.

Definition TextField_constructor (this : nat) (arg : Arg) : H unit :=
  let* options := default_param arg in
  BaseField_constructor this options.

Definition ValueField_constructor (this : nat) (arg : Arg) : H unit :=
  let* _ := BaseField_constructor this arg in
  let* v := member arg "value" in
  assign this "value" v.

(** [new C(arg)]: the instance is allocated with the prototype of [C],
    the constructor runs on it, and the instance is the result. *)
Definition new (c : Class) (constructor : nat → Arg → H unit)
    (arg : Arg) : H nat :=
  let* this := alloc (mkObj c ∅) in
  let* _ := constructor this arg in
  ret this.

Definition Boolean (arg : Arg) : H nat :=
  let* options := default_param arg in
  let* given := literal {[ "value" := VBoolean false ]} options in
  new ValueFieldClass ValueField_constructor (Object given).

Definition Number (arg : Arg) : H nat :=
  let* options := default_param arg in
  let* given := literal {[ "value" := VNumber 0 ]} options in
  new ValueFieldClass ValueField_constructor (Object given).

Definition String (arg : Arg) : H nat :=
  let* options := default_param arg in
  let* given := literal {[ "value" := VString "" ]} options in
  new ValueFieldClass ValueField_constructor (Object given).

Definition List (arg : Arg) : H nat :=
  let* options := default_param arg in
  new ListFieldClass ListField_constructor options.

Definition Map (arg : Arg) : H nat :=
  let* options := default_param arg in
  new MapFieldClass MapField_constructor options.

Definition Text (arg : Arg) : H nat :=
  let* options := default_param arg in
  new TextFieldClass TextField_constructor options.

Definition Value (arg : Arg) : H nat :=
  new ValueFieldClass ValueField_constructor arg.

Definition construct (c : Ctor) : Arg → H nat :=
  match c with
  | NewListField => new ListFieldClass ListField_constructor
  | NewMapField => new MapFieldClass MapField_constructor
  | NewTextField => new TextFieldClass TextField_constructor
  | NewValueField => new ValueFieldClass ValueField_constructor
  | CallBoolean => Boolean
  | CallNumber => Number
  | CallString => String
  | CallList => List
  | CallMap => Map
  | CallText => Text
  | CallValue => Value
  end.

(** A position that names no object stands for [undefined]. *)
Definition resolve (h : Heap) (a : Arg) : Arg :=
  match a with
  | Object l => if decide (l < length (objects h)) then a else Omitted
  | Omitted | Null => a
  end.

(** One call of this layer. *)
Definition exec (c : Call) (h : Heap) : Completion Answer * Heap :=
  match c with
  | Create k a =>
      match construct k (resolve h a) h with
      | (Return l, h') => (Return (Ref l), h')
      | (Throw e, h') => (Throw e, h')
      end
  | Read l m =>
      match objects h !! l with
      | Some o => (Return (Got (read o (member_key m))), h)
      | None => (Throw TypeError, h)
      end
  end.

Definition exec_all (cs : list Call) (h : Heap) : Heap :=
  foldl (λ h c, snd (exec c h)) h cs.

(** [l.k = v] in caller code.  [type] on a field instance is an accessor
    without setter: strict code gets a [TypeError] and the object stays
    as it was.  Any other key of this file is a data property, which the
    run time lets anyone write. *)
Definition write (l : nat) (k : string) (v : Val) : H unit :=
  λ h, match objects h !! l with
       | Some o =>
           match type_getter (class o) with
           | Some _ =>
               if decide (k = "type") then (Throw TypeError, h)
               else assign l k v h
           | None => assign l k v h
           end
       | None => (Throw TypeError, h)
       end.

Definition perform (e : Event) (h : Heap) : Heap :=
  match e with
  | Layer c => (exec c h).2
  | Write l k v => (write l k v h).2
  end.

Definition perform_all (es : list Event) (h : Heap) : Heap :=
  foldl (λ h e, perform e h) h es.

(** [m] keeps the objects below [n] as they are, when started with at
    least [n] objects. *)
Definition frame {A} (n : nat) (m : H A) : Prop :=
  ∀ h : Heap, (n ≤ length (objects h))%nat →
       (n ≤ length (objects (m h).2))%nat ∧
       take n (objects (m h).2) = take n (objects h).

End WithService.

Arguments Heap : clear implicits.

(** What [BaseField]'s constructor leaves on [this], given the own
    properties [p] of the options and the token [t]. *)
Definition stamped (p : gmap string Val) (t : string) (o : Obj) : Obj :=
  mkObj (class o)
    (<[ "description" := default (VString "") (p !! "description") ]>
       (<[ "undoable" := default (VBoolean true) (p !! "undoable") ]>
          (<[ "uuid" := VString t ]> (props o)))).

Definition class_of (c : Ctor) : Class :=
  match c with
  | NewListField | CallList => ListFieldClass
  | NewMapField | CallMap => MapFieldClass
  | NewTextField | CallText => TextFieldClass
  | NewValueField | CallValue | CallBoolean | CallNumber | CallString =>
      ValueFieldClass
  end.

(** The [value] the value entry points assign; the others assign none. *)
Definition stored_value (c : Ctor) (p : gmap string Val) : option Val :=
  match c with
  | NewValueField | CallValue => Some (default VUndefined (p !! "value"))
  | CallBoolean => Some (default (VBoolean false) (p !! "value"))
  | CallNumber => Some (default (VNumber 0) (p !! "value"))
  | CallString => Some (default (VString "") (p !! "value"))
  | NewListField | CallList | NewMapField | CallMap
  | NewTextField | CallText => None
  end.

(** The instance an entry point builds from options with own properties
    [p], with the token [t]. *)
Definition instance (c : Ctor) (p : gmap string Val) (t : string) : Obj :=
  let o := stamped p t (mkObj (class_of c) ∅) in
  match stored_value c p with
  | Some v => mkObj (class o) (<[ "value" := v ]> (props o))
  | None => o
  end.

(** The calls on which [options.value] is read off [undefined] or
    [null]. *)
Definition throws (c : Ctor) (a : Arg) : bool :=
  match c, a with
  | (NewValueField | CallValue), (Omitted | Null) => true
  | _, _ => false
  end.

(** The argument, when an object, is one of [objs]. *)
Definition allocated (objs : list Obj) (a : Arg) : Prop :=
  match a with
  | Object l => l < length objs
  | Omitted | Null => True
  end.

(** The event is not a caller's write to the object at [l]. *)
Definition spares (l : nat) (e : Event) : bool :=
  match e with
  | Write l' _ _ => negb (Nat.eqb l' l)
  | Layer _ => true
  end.

(** A field instance seen as a field, its values read through [θ]. *)
Definition view (θ : Val → JSValue) (o : Obj) : option Field :=
  match props o !! "uuid" with
  | Some (VString t) =>
      let b := {| undoable := θ (read o "undoable");
                  description := θ (read o "description");
                  uuid := t |} in
      match class o with
      | PlainObject => None
      | ListFieldClass => Some (ListField b)
      | MapFieldClass => Some (MapField b)
      | TextFieldClass => Some (TextField b)
      | ValueFieldClass => Some (ValueField b (θ (read o "value")))
      end
  | _ => None
  end.

(** [θ] reads a primitive as itself. *)
Definition reads_primitives (θ : Val → JSValue) : Prop :=
  θ VUndefined = JSUndefined ∧
  (∀ b, θ (VBoolean b) = JSBoolean b) ∧
  (∀ n, θ (VNumber n) = JSNumber n) ∧
  (∀ s, θ (VString s) = JSString s).

(** The argument as the first model takes it. *)
Definition view_arg (θ : Val → JSValue) (objs : list Obj) (a : Arg)
    : option Options :=
  match a with
  | Object l => Some (θ <$> from_option props ∅ (objs !! l))
  | Omitted | Null => None
  end.

(** A reading of values that takes a reference for [null]. *)
Definition flat (v : Val) : JSValue :=
  match v with
  | VUndefined => JSUndefined
  | VNull | VRef _ => JSNull
  | VBoolean b => JSBoolean b
  | VNumber n => JSNumber n
  | VString s => JSString s
  end.

End Store.

(** ** Evaluating construction *)

Section ConstructionFacts.

Context {Rng : Type} (uuid4 : Rng → string * Rng).

Lemma prop_spread (d o : Options) (k : string) :
  prop (spread d o) k = match o !! k with Some v => v | None => prop d k end.
Proof.
  unfold prop, spread. rewrite lookup_union.
  destruct (o !! k), (d !! k); reflexivity.
Qed.

Lemma BaseField_constructor_eval (arg : option Options) (g : Rng) :
  BaseField_constructor uuid4 arg g =
    (Return (base_for (default_param arg) (uuid4 g).1), (uuid4 g).2).
Proof.
  unfold BaseField_constructor, bind, UUID_uuid4, ret, base_for.
  destruct (uuid4 g) as [t g']; simpl.
  rewrite !prop_spread.
  destruct (default_param arg !! "undoable"),
           (default_param arg !! "description"); reflexivity.
Qed.

Lemma ListField_constructor_eval (arg : option Options) (g : Rng) :
  ListField_constructor uuid4 arg g =
    (Return (ListField (base_for (default_param arg) (uuid4 g).1)),
     (uuid4 g).2).
Proof.
  unfold ListField_constructor, bind.
  rewrite BaseField_constructor_eval. reflexivity.
Qed.

Lemma MapField_constructor_eval (arg : option Options) (g : Rng) :
  MapField_constructor uuid4 arg g =
    (Return (MapField (base_for (default_param arg) (uuid4 g).1)),
     (uuid4 g).2).
Proof.
  unfold MapField_constructor, bind.
  rewrite BaseField_constructor_eval. reflexivity.
Qed.

Lemma TextField_constructor_eval (arg : option Options) (g : Rng) :
  TextField_constructor uuid4 arg g =
    (Return (TextField (base_for (default_param arg) (uuid4 g).1)),
     (uuid4 g).2).
Proof.
  unfold TextField_constructor, bind.
  rewrite BaseField_constructor_eval. reflexivity.
Qed.

Lemma ValueField_constructor_eval (o : Options) (g : Rng) :
  ValueField_constructor uuid4 (Some o) g =
    (Return (ValueField (base_for o (uuid4 g).1) (prop o "value")),
     (uuid4 g).2).
Proof.
  unfold ValueField_constructor, bind.
  rewrite BaseField_constructor_eval. reflexivity.
Qed.

(** With no argument at all, [super(options)] still draws an identity
    and the read of [options.value] then throws. *)
Lemma ValueField_constructor_undefined (g : Rng) :
  ValueField_constructor uuid4 None g = (Throw TypeError, (uuid4 g).2).
Proof.
  unfold ValueField_constructor, bind.
  rewrite BaseField_constructor_eval. reflexivity.
Qed.

(** A factory default [{ k: d, ...options }] leaves the keys of
    [BaseField.IOptions] as [options] has them. *)
Lemma base_for_spread (k : string) (d : JSValue) (o : Options) (t : string) :
  k ≠ "undoable" → k ≠ "description" →
  base_for (spread {[ k := d ]} o) t = base_for o t.
Proof.
  intros Hu Hd. unfold base_for, spread. rewrite !lookup_union.
  rewrite !lookup_singleton_ne by done.
  destruct (o !! "undoable"), (o !! "description"); reflexivity.
Qed.

End ConstructionFacts.

Section ProcessFacts.

Context {Rng : Type} (uuid4 : Rng → string * Rng).

Lemma factory_value (d : JSValue) (o : Options) :
  prop (spread {[ "value" := d ]} o) "value" = default d (o !! "value").
Proof.
  rewrite prop_spread. unfold prop. rewrite lookup_singleton_eq.
  destruct (o !! "value"); reflexivity.
Qed.

(** Every entry point, given an options object, returns a field after
    exactly one call to the identity service. *)
Lemma construct_object (c : Ctor) (o : Options) (g : Rng) :
  ∃ f, construct uuid4 c (Some o) g = (Return f, (uuid4 g).2) ∧
       base_of f = base_for o (uuid4 g).1 ∧
       type f = kind_of c ∧
       value_of f = value_for c o.
Proof.
  destruct c; simpl;
    unfold Field.Boolean, Field.Number, Field.String, Field.List,
           Field.Map, Field.Text, Field.Value; simpl;
    rewrite ?ListField_constructor_eval, ?MapField_constructor_eval,
            ?TextField_constructor_eval, ?ValueField_constructor_eval;
    eexists; (split; [reflexivity|]); simpl;
    rewrite ?base_for_spread, ?factory_value by done; done.
Qed.

(** An omitted argument is the empty options object wherever the
    parameter has a default. *)
Lemma construct_omitted (c : Ctor) (g : Rng) :
  argument_given c None = true →
  construct uuid4 c None g = construct uuid4 c (Some ∅) g.
Proof. destruct c; simpl; intros; done. Qed.

(** One identity is drawn by every call that constructs, also by the one
    that throws. *)
Lemma construct_draws_once (c : Ctor) (arg : option Options) (g : Rng) :
  (construct uuid4 c arg g).2 = (uuid4 g).2 ∧
  ∀ f, (construct uuid4 c arg g).1 = Return f →
       uuid (base_of f) = (uuid4 g).1.
Proof.
  destruct arg as [o|].
  - destruct (construct_object c o g) as (f & -> & Hb & _).
    simpl. split; [done|]. intros ? [= <-]. by rewrite Hb.
  - destruct (argument_given c None) eqn:Hc.
    + rewrite construct_omitted by done.
      destruct (construct_object c ∅ g) as (f & -> & Hb & _).
      simpl. split; [done|]. intros ? [= <-]. by rewrite Hb.
    + destruct c; try discriminate; simpl; unfold Field.Value;
        rewrite ValueField_constructor_undefined; simpl; split; done.
Qed.

Lemma step_heap (c : Call) (w : World Rng) :
  ∃ l, heap (step uuid4 c w).2 = heap w ++ l.
Proof.
  destruct c as [k arg|r m]; simpl.
  - destruct (construct uuid4 k arg (rng w)) as [[f|e] g]; simpl.
    + by eexists.
    + exists []. by rewrite app_nil_r.
  - destruct (heap w !! r); exists []; by rewrite app_nil_r.
Qed.

Lemma run_snoc (cs : list Call) (c : Call) (w : World Rng) :
  run uuid4 (cs ++ [c]) w = (step uuid4 c (run uuid4 cs w)).2.
Proof. unfold run. by rewrite foldl_app. Qed.

Lemma run_heap (cs : list Call) (w : World Rng) :
  ∃ l, heap (run uuid4 cs w) = heap w ++ l.
Proof.
  induction cs as [|c cs IH] using rev_ind.
  - exists []. by rewrite app_nil_r.
  - rewrite run_snoc. destruct IH as [l Hl].
    destruct (step_heap c (run uuid4 cs w)) as [l' Hl'].
    exists (l ++ l'). by rewrite Hl', Hl, app_assoc.
Qed.

(** An instance stays where it is and as it is, whatever is called. *)
Lemma run_lookup (cs : list Call) (w : World Rng) (r : nat) (f : Field) :
  heap w !! r = Some f → heap (run uuid4 cs w) !! r = Some f.
Proof.
  intros Hr. destruct (run_heap cs w) as [l ->].
  by apply lookup_app_l_Some.
Qed.

Lemma tokens_snoc (g : Rng) (n : nat) :
  tokens uuid4 g (S n) = tokens uuid4 g n ++ [(uuid4 (advance uuid4 g n)).1].
Proof.
  revert g. induction n as [|n IH]; intros g.
  - simpl. by destruct (uuid4 g).
  - change (tokens uuid4 g (S (S n)))
      with (let (t, g') := uuid4 g in t :: tokens uuid4 g' (S n)).
    change (tokens uuid4 g (S n))
      with (let (t, g') := uuid4 g in t :: tokens uuid4 g' n).
    change (advance uuid4 g (S n)) with (advance uuid4 (uuid4 g).2 n).
    destruct (uuid4 g) as [t g']; simpl snd.
    by rewrite IH.
Qed.

Lemma advance_succ (g : Rng) (n : nat) :
  advance uuid4 g (S n) = (uuid4 (advance uuid4 g n)).2.
Proof. revert g. induction n as [|n IH]; intros g; [done|]. apply IH. Qed.

Lemma step_issued (g0 : Rng) (c : Call) (w : World Rng) :
  issued_so_far uuid4 g0 w → issued_so_far uuid4 g0 (step uuid4 c w).2.
Proof.
  intros (n & Hg & Hsub). destruct c as [k arg|r m]; simpl.
  - destruct (construct_draws_once k arg (rng w)) as [Hnext Hid].
    destruct (construct uuid4 k arg (rng w)) as [[f|e] g] eqn:Hk;
      simpl in *; exists (S n); rewrite advance_succ, <- Hg, tokens_snoc;
      (split; [done|]).
    + simpl. rewrite fmap_app. apply sublist_app; [done|]. simpl.
      rewrite (Hid f eq_refl), Hg. done.
    + by apply sublist_inserts_r.
  - destruct (heap w !! r); simpl; by exists n.
Qed.

Lemma run_issued (g0 : Rng) (cs : list Call) :
  issued_so_far uuid4 g0 (run uuid4 cs {| heap := []; rng := g0 |}).
Proof.
  induction cs as [|c cs IH] using rev_ind.
  - exists 0. simpl. split; [done|]. constructor.
  - rewrite run_snoc. by apply step_issued.
Qed.

End ProcessFacts.

(** ** Construction: options, defaults and the required [value] *)

Section ConstructionClaims.

Context {Rng : Type} (uuid4 : Rng → string * Rng).

Lemma recognized_lookup (o : Options) (k : string) :
  k = "undoable" ∨ k = "description" → recognized o !! k = o !! k.
Proof.
  intros Hk. unfold recognized. rewrite map_lookup_filter.
  destruct (o !! k) as [v|]; simpl; [|done].
  by rewrite option_guard_True.
Qed.

Lemma base_for_recognized (o : Options) (t : string) :
  base_for (recognized o) t = base_for o t.
Proof.
  unfold base_for. rewrite !recognized_lookup by auto. reflexivity.
Qed.

Lemma value_for_insert_other (c : Ctor) (k : string) (v : JSValue)
    (o : Options) :
  k ≠ "value" → value_for c (<[k := v]> o) = value_for c o.
Proof.
  intros Hk. destruct c; simpl; unfold prop;
    rewrite ?lookup_insert_ne by done; reflexivity.
Qed.

(** C1 (as amended): the code has no check on [value].  For every options
    object, [Value] and [new ValueField] return a field of kind 'value'
    whose [value] is what the object holds under [value]: [undefined]
    when the key is missing, [42] when it is [42]. *)
Theorem ValueField_value_is_read_unchecked (o : Options) (g : Rng) :
  let without := delete "value" o in
  let with42 := <[ "value" := JSNumber 42 ]> o in
  Field.Value uuid4 (Some without) g =
    (Return (ValueField (base_for without (uuid4 g).1) JSUndefined),
     (uuid4 g).2) ∧
  ValueField_constructor uuid4 (Some without) g =
    Field.Value uuid4 (Some without) g ∧
  ∃ f, Field.Value uuid4 (Some with42) g = (Return f, (uuid4 g).2) ∧
       ValueField_constructor uuid4 (Some with42) g = (Return f, (uuid4 g).2) ∧
       value_of f = JSNumber 42 ∧
       type f = "value".
Proof.
  intros without with42. unfold Field.Value.
  rewrite !ValueField_constructor_eval.
  split; [|split; [reflexivity|]].
  - unfold prop, without. by rewrite lookup_delete_eq.
  - eexists. do 2 (split; [reflexivity|]). simpl.
    unfold prop, with42. by rewrite lookup_insert_eq.
Qed.

(** C3: called with no options, [Field.Boolean], [Field.Number] and
    [Field.String] return value fields holding [false], [0] and [''],
    each with [undoable === true] and [description === '']; the same
    holds for the empty options object. *)
Theorem factory_defaults (g : Rng) :
  let b := {| undoable := JSBoolean true; description := JSString "";
              uuid := (uuid4 g).1 |} in
  (Field.Boolean uuid4 None g =
     (Return (ValueField b (JSBoolean false)), (uuid4 g).2) ∧
   Field.Number uuid4 None g =
     (Return (ValueField b (JSNumber 0)), (uuid4 g).2) ∧
   Field.String uuid4 None g =
     (Return (ValueField b (JSString "")), (uuid4 g).2)) ∧
  (Field.Boolean uuid4 (Some ∅) g = Field.Boolean uuid4 None g ∧
   Field.Number uuid4 (Some ∅) g = Field.Number uuid4 None g ∧
   Field.String uuid4 (Some ∅) g = Field.String uuid4 None g).
Proof.
  intros b. split; [|repeat split].
  unfold Field.Boolean, Field.Number, Field.String.
  rewrite !ValueField_constructor_eval. repeat split.
Qed.

(** C4: [BaseField]'s constructor reads the keys [undoable] and
    [description] only: it returns what it returns on the options cut
    down to these two keys, never throws on an options object, and for
    every entry point the field's [undoable] and [description] are the
    supplied values when the keys are present, [true] and [''] when
    they are not. *)
Theorem options_recognized_keys (o : Options) (g : Rng) :
  BaseField_constructor uuid4 (Some o) g =
    (Return {| undoable := default (JSBoolean true) (o !! "undoable");
               description := default (JSString "") (o !! "description");
               uuid := (uuid4 g).1 |},
     (uuid4 g).2) ∧
  BaseField_constructor uuid4 (Some (recognized o)) g =
    BaseField_constructor uuid4 (Some o) g ∧
  ListField_constructor uuid4 (Some (recognized o)) g =
    ListField_constructor uuid4 (Some o) g ∧
  MapField_constructor uuid4 (Some (recognized o)) g =
    MapField_constructor uuid4 (Some o) g ∧
  TextField_constructor uuid4 (Some (recognized o)) g =
    TextField_constructor uuid4 (Some o) g ∧
  ∀ c, ∃ f,
    construct uuid4 c (Some o) g = (Return f, (uuid4 g).2) ∧
    undoable (base_of f) = default (JSBoolean true) (o !! "undoable") ∧
    description (base_of f) = default (JSString "") (o !! "description").
Proof.
  rewrite !BaseField_constructor_eval, !ListField_constructor_eval,
    !MapField_constructor_eval, !TextField_constructor_eval.
  simpl. rewrite base_for_recognized.
  do 5 (split; [reflexivity|]).
  intros c. destruct (construct_object uuid4 c o g) as (f & Hf & Hb & _).
  exists f. rewrite Hb. by repeat split.
Qed.

(** C5: for every entry point and every options object, setting
    [undoable: false] gives a field whose [undoable] is [false]; its
    discriminant, its [description] and its [value] are those of the
    field built without the override, and in both cases the identity is
    the token of the one call made to the identity service. *)
Theorem undoable_false_changes_nothing_else (c : Ctor) (o : Options)
    (g : Rng) :
  ∃ f f',
    construct uuid4 c (Some o) g = (Return f, (uuid4 g).2) ∧
    construct uuid4 c (Some (<[ "undoable" := JSBoolean false ]> o)) g =
      (Return f', (uuid4 g).2) ∧
    undoable (base_of f') = JSBoolean false ∧
    type f' = type f ∧
    type f' = kind_of c ∧
    uuid (base_of f') = (uuid4 g).1 ∧
    uuid (base_of f) = (uuid4 g).1 ∧
    description (base_of f') = description (base_of f) ∧
    value_of f' = value_of f.
Proof.
  destruct (construct_object uuid4 c o g) as (f & Hf & Hb & Ht & Hv).
  destruct (construct_object uuid4 c (<[ "undoable" := JSBoolean false ]> o) g)
    as (f' & Hf' & Hb' & Ht' & Hv').
  exists f, f'. rewrite Hb, Hb', Ht, Ht', Hv, Hv'.
  rewrite value_for_insert_other by done.
  unfold base_for; simpl.
  rewrite lookup_insert_eq, lookup_insert_ne by done.
  by repeat split.
Qed.

(** C9: a key that is present and holds [undefined] overrides the
    default: with [undoable: undefined] the field's [undoable] is
    [undefined], not [true], and with [description: undefined] its
    [description] is [undefined], not ['']. *)
Theorem explicit_undefined_overrides_default (c : Ctor) (o : Options)
    (g : Rng) :
  (∃ b, BaseField_constructor uuid4
          (Some (<[ "undoable" := JSUndefined ]> o)) g =
          (Return b, (uuid4 g).2) ∧
        undoable b = JSUndefined) ∧
  (∃ b, BaseField_constructor uuid4
          (Some (<[ "description" := JSUndefined ]> o)) g =
          (Return b, (uuid4 g).2) ∧
        description b = JSUndefined) ∧
  (∃ f, construct uuid4 c (Some (<[ "undoable" := JSUndefined ]> o)) g =
          (Return f, (uuid4 g).2) ∧
        undoable (base_of f) = JSUndefined) ∧
  (∃ f, construct uuid4 c (Some (<[ "description" := JSUndefined ]> o)) g =
          (Return f, (uuid4 g).2) ∧
        description (base_of f) = JSUndefined).
Proof.
  rewrite !BaseField_constructor_eval.
  repeat split.
  - eexists; split; [reflexivity|]. simpl. by rewrite lookup_insert_eq.
  - eexists; split; [reflexivity|]. simpl. by rewrite lookup_insert_eq.
  - destruct (construct_object uuid4 c (<[ "undoable" := JSUndefined ]> o) g)
      as (f & Hf & Hb & _).
    exists f. rewrite Hb. split; [done|]. simpl. by rewrite lookup_insert_eq.
  - destruct (construct_object uuid4 c (<[ "description" := JSUndefined ]> o) g)
      as (f & Hf & Hb & _).
    exists f. rewrite Hb. split; [done|]. simpl. by rewrite lookup_insert_eq.
Qed.

(** C10: in [Field.Boolean], [Field.Number] and [Field.String] a supplied
    [value] wins over the default: when the options hold [value: v] the
    field's [value] is [v]; with the key removed it is the default of
    the factory. *)
Theorem factory_value_overrides_default (o : Options) (v : JSValue)
    (g : Rng) :
  o !! "value" = Some v →
  let b := base_for o (uuid4 g).1 in
  let o' := delete "value" o in
  let b' := base_for o' (uuid4 g).1 in
  (Field.Boolean uuid4 (Some o) g = (Return (ValueField b v), (uuid4 g).2) ∧
   Field.Number uuid4 (Some o) g = (Return (ValueField b v), (uuid4 g).2) ∧
   Field.String uuid4 (Some o) g = (Return (ValueField b v), (uuid4 g).2)) ∧
  (Field.Boolean uuid4 (Some o') g =
     (Return (ValueField b' (JSBoolean false)), (uuid4 g).2) ∧
   Field.Number uuid4 (Some o') g =
     (Return (ValueField b' (JSNumber 0)), (uuid4 g).2) ∧
   Field.String uuid4 (Some o') g =
     (Return (ValueField b' (JSString "")), (uuid4 g).2)).
Proof.
  intros Hv b o' b'. unfold Field.Boolean, Field.Number, Field.String.
  rewrite !ValueField_constructor_eval. simpl.
  rewrite !base_for_spread, !factory_value by done.
  unfold o'. rewrite Hv, lookup_delete_eq. simpl. by repeat split.
Qed.

End ConstructionClaims.

(** ** The counter source *)





(** ** The process: discriminant *)

Section ProcessClaims.

Context {Rng : Type} (uuid4 : Rng → string * Rng).

(** C2: every entry point called with the argument its signature
    requires returns a new instance whose discriminant is the constant
    of its class ('list', 'map', 'text' or 'value'), and the [type]
    getter returns that constant after any further calls of this
    layer. *)
Theorem type_is_constant (c : Ctor) (arg : option Options)
    (w : World Rng) :
  argument_given c arg = true →
  ∃ f g,
    let r := length (heap w) in
    let w' := {| heap := heap w ++ [f]; rng := g |} in
    construct uuid4 c arg (rng w) = (Return f, g) ∧
    step uuid4 (Create c arg) w = (Return (Ref r), w') ∧
    type f = kind_of c ∧
    ∀ cs, (step uuid4 (Read r MType) (run uuid4 cs w')).1 =
            Return (Val (JSString (kind_of c))).
Proof.
  intros Harg.
  assert (∃ o, construct uuid4 c arg (rng w) =
               construct uuid4 c (Some o) (rng w)) as [o Ho].
  { destruct arg as [o|]; [by exists o|].
    exists ∅. by apply construct_omitted. }
  destruct (construct_object uuid4 c o (rng w)) as (f & Hf & _ & Ht & _).
  exists f, (uuid4 (rng w)).2. simpl.
  rewrite Ho, Hf. do 3 (split; [done|]).
  intros cs.
  rewrite (run_lookup uuid4 cs _ (length (heap w)) f).
  - simpl. by rewrite Ht.
  - simpl. by rewrite list_lookup_middle.
Qed.

End ProcessClaims.

(** ** Change records of a map field: undo *)

Section ChangeClaims.

Context {T : Type}.
Implicit Types (state before after : gmap string T).
Implicit Types (entries items : gmap string (option T)).

Import MapField.

(** A key named by the entries ends as its entry says; any other key is
    left alone. *)
Lemma apply_entries_lookup entries state (k : string) :
  apply_entries entries state !! k =
    match entries !! k with
    | Some entry => entry
    | None => state !! k
    end.
Proof.
  unfold apply_entries.
  apply (map_fold_weak_ind
           (λ acc (seen : gmap string (option T)),
              acc !! k = match seen !! k with
                         | Some entry => entry
                         | None => state !! k
                         end)).
  - by rewrite lookup_empty.
  - intros i entry seen acc _ IH.
    destruct (decide (i = k)) as [->|Hik].
    + rewrite lookup_insert_eq.
      destruct entry; [apply lookup_insert_eq|apply lookup_delete_eq].
    + rewrite (lookup_insert_ne seen) by done.
      destruct entry;
        [rewrite lookup_insert_ne by done|rewrite lookup_delete_ne by done];
        exact IH.
Qed.

(** The change [update] reports is a record of the mutation it made. *)
Lemma update_records items state :
  records (update items state).2 state (update items state).1.
Proof.
  unfold records, update; simpl. repeat split.
  - apply set_eq. intros k. rewrite !elem_of_dom, map_lookup_imap.
    destruct (items !! k); simpl; split; by eauto.
  - intros k entry. rewrite map_lookup_imap.
    destruct (items !! k); simpl; congruence.
  - intros k entry Hk. by rewrite apply_entries_lookup, Hk.
  - intros k. rewrite map_lookup_imap, apply_entries_lookup.
    destruct (items !! k); simpl; [discriminate|done].
Qed.

(** C8: when a change records the mutation of a map from [before] to
    [after], applying its [previous] side to [after] gives back [before],
    key for key (and applying its [current] side to [before] gives
    [after]). *)
Theorem previous_undoes_change (change : IChange T) before after :
  records change before after →
  apply_entries (previous change) after = before ∧
  apply_entries (current change) before = after.
Proof.
  intros (Hdom & Hprev & Hcur & Hrest). split; apply map_eq; intros k;
    rewrite apply_entries_lookup.
  - destruct (previous change !! k) as [entry|] eqn:Hk.
    + by apply Hprev.
    + by apply Hrest.
  - destruct (current change !! k) as [entry|] eqn:Hk.
    + by apply Hcur.
    + symmetry. apply Hrest.
      apply not_elem_of_dom. rewrite Hdom. by apply not_elem_of_dom.
Qed.

End ChangeClaims.

(** ** The claims on concrete inputs *)

(** C1 (as stated) fails: with the counter source, [Value({})] and
    [new ValueField({})] return a field whose [value] is [undefined];
    neither throws. *)
Lemma Value_without_value_does_not_fail :
  Field.Value counter_uuid4 (Some ∅) 0 =
    (Return (ValueField {| undoable := JSBoolean true;
                           description := JSString "";
                           uuid := "u" |} JSUndefined), 1) ∧
  ValueField_constructor counter_uuid4 (Some ∅) 0 =
    Field.Value counter_uuid4 (Some ∅) 0 ∧
  ¬ (∃ e, (Field.Value counter_uuid4 (Some ∅) 0).1 = Throw e) ∧
  ¬ (∃ e, (ValueField_constructor counter_uuid4 (Some ∅) 0).1 = Throw e).
Proof.
  assert (Field.Value counter_uuid4 (Some ∅) 0 =
    (Return (ValueField {| undoable := JSBoolean true;
                           description := JSString "";
                           uuid := "u" |} JSUndefined), 1)) as Hv
    by (vm_compute; reflexivity).
  split; [exact Hv|]. split; [reflexivity|].
  unfold Field.Value in *. rewrite Hv. simpl.
  split; intros [e He]; discriminate He.
Qed.

Lemma type_is_constant_witness :
  argument_given NewMapField None = true ∧
  (step counter_uuid4 (Read 0 MType)
     (run counter_uuid4 [Create CallBoolean None; Read 1 MUuid]
        (step counter_uuid4 (Create NewMapField None)
           {| heap := []; rng := 0 |}).2)).1 =
    Return (Val (JSString "map")).
Proof.
  split; [reflexivity|].
  destruct (type_is_constant counter_uuid4 NewMapField None
              {| heap := []; rng := 0 |} eq_refl)
    as (f & g & _ & Hstep & _ & Hread).
  rewrite Hstep. apply Hread.
Defined.

Lemma previous_undoes_change_witness :
  let change := {| MapField.previous := {[ "a" := Some (JSNumber 1) ]};
                   MapField.current := {[ "a" := Some (JSNumber 2) ]} |} in
  let before : gmap string JSValue := {[ "a" := JSNumber 1 ]} in
  let after : gmap string JSValue := {[ "a" := JSNumber 2 ]} in
  MapField.records change before after ∧
  MapField.apply_entries (MapField.previous change) after = before.
Proof.
  intros change before after.
  assert (MapField.records change before after) as Hrec.
  { unfold MapField.records, change, before, after;
      cbn [MapField.previous MapField.current].
    split; [by rewrite !dom_singleton_L|]. repeat split.
    - intros k entry [<- <-]%lookup_singleton_Some.
      by rewrite lookup_singleton_eq.
    - intros k entry [<- <-]%lookup_singleton_Some.
      by rewrite lookup_singleton_eq.
    - intros k Hk%lookup_singleton_None.
      by rewrite !lookup_singleton_ne. }
  split; [exact Hrec|].
  exact (proj1 (previous_undoes_change change before after Hrec)).
Defined.

Lemma factory_value_overrides_default_witness :
  let o : Options := {[ "value" := JSBoolean true ]} in
  o !! "value" = Some (JSBoolean true) ∧
  Field.Boolean counter_uuid4 (Some o) 0 =
    (Return (ValueField {| undoable := JSBoolean true;
                           description := JSString "";
                           uuid := "u" |} (JSBoolean true)), 1).
Proof.
  intros o. split; [reflexivity|].
  exact (proj1 (proj1 (factory_value_overrides_default counter_uuid4 o
                         (JSBoolean true) 0 eq_refl))).
Defined.

(** [Value({value: 42})] on the counter source. *)
Example Value_42 :
  Field.Value counter_uuid4 (Some {[ "value" := JSNumber 42 ]}) 0 =
    (Return (ValueField {| undoable := JSBoolean true;
                           description := JSString "";
                           uuid := "u" |} (JSNumber 42)), 1).
Proof. vm_compute; reflexivity. Qed.

(** The one throwing path of the file: [new ValueField()] with no
    argument at all reads a member of [undefined], after the identity
    was drawn. *)
Example ValueField_without_argument :
  ValueField_constructor counter_uuid4 None 0 = (Throw TypeError, 1).
Proof. vm_compute; reflexivity. Qed.

(** [{undoable: undefined, extra: null}] passed to [Field.Text]. *)
Example Text_undoable_undefined :
  Field.Text counter_uuid4
    (Some {[ "undoable" := JSUndefined; "extra" := JSNull ]}) 7 =
    (Return (TextField {| undoable := JSUndefined;
                          description := JSString "";
                          uuid := "uuuuuuuu" |}), 8).
Proof. vm_compute; reflexivity. Qed.

(** ** Further properties of construction *)

Section ConstructionExtras.

Context {Rng : Type} (uuid4 : Rng → string * Rng).

(** What an entry point does with any argument: a field after one draw
    when the argument it declares is there, a [TypeError] after one draw
    when it is not. *)
Lemma construct_cases (c : Ctor) (arg : option Options) (g : Rng) :
  if argument_given c arg
  then ∃ f, construct uuid4 c arg g = (Return f, (uuid4 g).2) ∧
            type f = kind_of c ∧
            uuid (base_of f) = (uuid4 g).1
  else construct uuid4 c arg g = (Throw TypeError, (uuid4 g).2).
Proof.
  destruct arg as [o|].
  - replace (argument_given c (Some o)) with true by (by destruct c).
    destruct (construct_object uuid4 c o g) as (f & Hf & Hb & Ht & _).
    exists f. by rewrite Hb.
  - destruct (argument_given c None) eqn:Hc.
    + rewrite construct_omitted by done.
      destruct (construct_object uuid4 c ∅ g) as (f & Hf & Hb & Ht & _).
      exists f. by rewrite Hb.
    + destruct c; try discriminate Hc; simpl; unfold Field.Value;
        apply ValueField_constructor_undefined.
Qed.

Lemma field_ext (f f' : Field) :
  type f = type f' → base_of f = base_of f' → value_of f = value_of f' →
  f = f'.
Proof.
  destruct f, f'; simpl; intros Ht Hb Hv; try discriminate Ht; congruence.
Qed.

Lemma kept_lookup (o : Options) (k : string) :
  k = "undoable" ∨ k = "description" ∨ k = "value" → kept o !! k = o !! k.
Proof.
  intros Hk. unfold kept. rewrite map_lookup_filter.
  destruct (o !! k) as [v|]; simpl; [|done].
  by rewrite option_guard_True.
Qed.

(** X6: a field keeps nothing of its options beyond [undoable],
    [description] and [value]: every entry point returns the same field,
    and leaves the identity source in the same state, on the options cut
    down to these three keys. *)
Theorem construction_reads_three_keys (c : Ctor) (o : Options) (g : Rng) :
  construct uuid4 c (Some (kept o)) g = construct uuid4 c (Some o) g.
Proof.
  destruct (construct_object uuid4 c o g) as (f & -> & Hb & Ht & Hv).
  destruct (construct_object uuid4 c (kept o) g) as (f' & -> & Hb' & Ht' & Hv').
  f_equal. f_equal. apply field_ext.
  - by rewrite Ht, Ht'.
  - rewrite Hb, Hb'. unfold base_for. by rewrite !kept_lookup by auto.
  - rewrite Hv, Hv'. destruct c; simpl; unfold prop;
      rewrite ?kept_lookup by auto; reflexivity.
Qed.

(** X7: the list, map and text entry points ignore a [value] option as
    they ignore any unknown key: the field is the one built from the
    options cut down to [undoable] and [description], and it has no
    [value]. *)
Theorem list_map_text_ignore_value (c : Ctor) (o : Options) (g : Rng) :
  kind_of c ≠ "value" →
  construct uuid4 c (Some (recognized o)) g = construct uuid4 c (Some o) g ∧
  ∃ f, construct uuid4 c (Some o) g = (Return f, (uuid4 g).2) ∧
       value_of f = JSUndefined.
Proof.
  intros Hk.
  destruct (construct_object uuid4 c o g) as (f & Hf & Hb & Ht & Hv).
  destruct (construct_object uuid4 c (recognized o) g)
    as (f' & Hf' & Hb' & Ht' & Hv').
  assert (∀ o', value_for c o' = JSUndefined) as Hundef
    by (intros o'; destruct c; simpl in *; done).
  split.
  - rewrite Hf, Hf'. f_equal. f_equal. apply field_ext.
    + by rewrite Ht, Ht'.
    + by rewrite Hb, Hb', base_for_recognized.
    + by rewrite Hv, Hv', !Hundef.
  - exists f. by rewrite <- (Hundef o).
Qed.

(** [Field.List], [Field.Map], [Field.Text] and [Field.Value] are the
    constructors of their class for every argument, an omitted one
    included. *)
Lemma factories_are_the_constructors (arg : option Options) (g : Rng) :
  Field.List uuid4 arg g = ListField_constructor uuid4 arg g ∧
  Field.Map uuid4 arg g = MapField_constructor uuid4 arg g ∧
  Field.Text uuid4 arg g = TextField_constructor uuid4 arg g ∧
  Field.Value uuid4 arg g = ValueField_constructor uuid4 arg g.
Proof. destruct arg; repeat split. Qed.

(** X8: the default is all that tells [Field.Boolean], [Field.Number]
    and [Field.String] apart: on options that hold a [value], of whatever
    type, each of them is [Field.Value]. *)
Theorem typed_factories_do_not_check_value (o : Options) (v : JSValue)
    (g : Rng) :
  o !! "value" = Some v →
  Field.Boolean uuid4 (Some o) g = Field.Value uuid4 (Some o) g ∧
  Field.Number uuid4 (Some o) g = Field.Value uuid4 (Some o) g ∧
  Field.String uuid4 (Some o) g = Field.Value uuid4 (Some o) g.
Proof.
  intros Hv. unfold Field.Boolean, Field.Number, Field.String, Field.Value.
  rewrite !ValueField_constructor_eval. simpl.
  rewrite !base_for_spread, !factory_value by done.
  unfold prop. rewrite Hv. by repeat split.
Qed.

End ConstructionExtras.

(** ** Further properties of the process *)

Section ProcessExtras.

Context {Rng : Type} (uuid4 : Rng → string * Rng).

Lemma run_cons (c : Call) (cs : list Call) (w : World Rng) :
  run uuid4 (c :: cs) w = run uuid4 cs (step uuid4 c w).2.
Proof. reflexivity. Qed.

Lemma tokens_succ (g : Rng) (n : nat) :
  tokens uuid4 g (S n) = (uuid4 g).1 :: tokens uuid4 (uuid4 g).2 n.
Proof. simpl. by destruct (uuid4 g). Qed.

(** A constructing call, in full. *)
Lemma step_create (k : Ctor) (arg : option Options) (w : World Rng) :
  if argument_given k arg
  then ∃ f, step uuid4 (Create k arg) w =
              (Return (Ref (length (heap w))),
               {| heap := heap w ++ [f]; rng := (uuid4 (rng w)).2 |}) ∧
            type f = kind_of k ∧
            uuid (base_of f) = (uuid4 (rng w)).1
  else step uuid4 (Create k arg) w =
         (Throw TypeError, {| heap := heap w; rng := (uuid4 (rng w)).2 |}).
Proof.
  pose proof (construct_cases uuid4 k arg (rng w)) as Hc. simpl.
  destruct (argument_given k arg).
  - destruct Hc as (f & -> & Ht & Hid). by exists f.
  - by rewrite Hc.
Qed.

Lemma step_read (r : nat) (m : Member) (w : World Rng) :
  (step uuid4 (Read r m) w).2 = w.
Proof. simpl. by destruct (heap w !! r). Qed.

(** X2: [new ValueField()] and [Field.Value()] without an argument throw
    after [super(options)] has run: no instance is left behind, but one
    identity is spent, and the field constructed next carries the token
    after it. *)
Theorem failed_construction_spends_an_identity (w : World Rng) (c : Ctor)
    (o : Options) :
  let w' := {| heap := heap w; rng := (uuid4 (rng w)).2 |} in
  step uuid4 (Create NewValueField None) w = (Throw TypeError, w') ∧
  step uuid4 (Create CallValue None) w = (Throw TypeError, w') ∧
  ∃ f, step uuid4 (Create c (Some o)) w' =
         (Return (Ref (length (heap w))),
          {| heap := heap w ++ [f];
             rng := (uuid4 (uuid4 (rng w)).2).2 |}) ∧
       uuid (base_of f) = (uuid4 (uuid4 (rng w)).2).1.
Proof.
  intros w'.
  split; [exact (step_create NewValueField None w)|].
  split; [exact (step_create CallValue None w)|].
  pose proof (step_create c (Some o) w') as Hs.
  replace (argument_given c (Some o)) with true in Hs by (by destruct c).
  destruct Hs as (f & Hs & _ & Hid). by exists f.
Qed.

(** X3: the identity service is called once for each constructing call of
    a run, whether it returns or throws, and never by a read: the source
    ends in the state that many draws lead to. *)
Theorem one_draw_per_construction (cs : list Call) (w : World Rng) :
  rng (run uuid4 cs w) = advance uuid4 (rng w) (constructions cs).
Proof.
  revert w. induction cs as [|[k arg|r m] cs IH]; intros w; [done| |].
  - rewrite run_cons, IH. simpl constructions.
    pose proof (step_create k arg w) as Hs.
    destruct (argument_given k arg).
    + destruct Hs as (f & -> & _). reflexivity.
    + rewrite Hs. reflexivity.
  - by rewrite run_cons, IH, step_read.
Qed.

(** X4: a run adds one instance for each constructing call that is given
    the argument its entry point declares, and none for any other call. *)
Theorem one_instance_per_completed_construction (cs : list Call)
    (w : World Rng) :
  length (heap (run uuid4 cs w)) = length (heap w) + completed cs.
Proof.
  revert w. induction cs as [|[k arg|r m] cs IH]; intros w.
  - simpl. lia.
  - rewrite run_cons, IH. simpl completed.
    pose proof (step_create k arg w) as Hs.
    destruct (argument_given k arg).
    + destruct Hs as (f & -> & _). simpl. rewrite length_app. simpl. lia.
    + rewrite Hs. simpl. lia.
  - rewrite run_cons, IH, step_read. simpl. lia.
Qed.

(** X5: when every constructing call of a run is given its argument, the
    identities of the instances it adds, in order of creation, are exactly
    the tokens the service issues from the state the run starts in, in
    order of issue: none is skipped, repeated or altered.  In a process
    that starts with no instance they are all the identities there are. *)
Theorem identities_are_the_tokens_in_order (cs : list Call) (w : World Rng) :
  forallb call_ok cs = true →
  uuid ∘ base_of <$> heap (run uuid4 cs w) =
    (uuid ∘ base_of <$> heap w) ++ tokens uuid4 (rng w) (constructions cs).
Proof.
  revert w. induction cs as [|[k arg|r m] cs IH]; intros w Hok.
  - simpl. by rewrite app_nil_r.
  - simpl in Hok. apply andb_true_iff in Hok as [Hk Hok].
    rewrite run_cons, IH by done. simpl constructions.
    rewrite tokens_succ.
    pose proof (step_create k arg w) as Hs. rewrite Hk in Hs.
    destruct Hs as (f & -> & _ & Hid). cbn [snd heap rng].
    rewrite fmap_app, <- app_assoc. simpl. by rewrite Hid.
  - simpl in Hok. by rewrite run_cons, IH, step_read.
Qed.

(** X9: creation returns the position after the instances alive, and at
    any later time the members read there are the constant of the class,
    the supplied [undoable] and [description] or their defaults, the token
    drawn at creation, and the [value] the entry point stored. *)
Theorem members_read_after_creation (c : Ctor) (o : Options)
    (w : World Rng) (cs : list Call) :
  let r := length (heap w) in
  let created := step uuid4 (Create c (Some o)) w in
  let later := run uuid4 cs created.2 in
  created.1 = Return (Ref r) ∧
  (step uuid4 (Read r MType) later).1 =
    Return (Val (JSString (kind_of c))) ∧
  (step uuid4 (Read r MUndoable) later).1 =
    Return (Val (default (JSBoolean true) (o !! "undoable"))) ∧
  (step uuid4 (Read r MDescription) later).1 =
    Return (Val (default (JSString "") (o !! "description"))) ∧
  (step uuid4 (Read r MUuid) later).1 =
    Return (Val (JSString (uuid4 (rng w)).1)) ∧
  (step uuid4 (Read r MValue) later).1 = Return (Val (value_for c o)).
Proof.
  intros r created later.
  destruct (construct_object uuid4 c o (rng w)) as (f & Hf & Hb & Ht & Hv).
  assert (created = (Return (Ref r),
                     {| heap := heap w ++ [f]; rng := (uuid4 (rng w)).2 |}))
    as Hcreated by (unfold created; simpl; by rewrite Hf).
  assert (heap later !! r = Some f) as Hr.
  { unfold later. apply run_lookup. rewrite Hcreated. simpl.
    by rewrite list_lookup_middle. }
  split; [by rewrite Hcreated|].
  simpl. rewrite Hr. simpl. rewrite Hb, Ht, Hv. by repeat split.
Qed.

End ProcessExtras.

(** ** The further properties on concrete inputs *)

Lemma list_map_text_ignore_value_witness :
  let o : Options := {[ "value" := JSArray [JSNumber 1; JSNumber 2];
                        "description" := JSString "tags" ]} in
  kind_of CallList ≠ "value" ∧
  Field.List counter_uuid4 (Some o) 0 =
    (Return (ListField {| undoable := JSBoolean true;
                          description := JSString "tags";
                          uuid := "u" |}), 1).
Proof.
  intros o. split; [discriminate|].
  destruct (list_map_text_ignore_value counter_uuid4 CallList o 0)
    as [Hsame _]; [discriminate|].
  simpl in Hsame. rewrite <- Hsame. vm_compute; reflexivity.
Defined.

Lemma typed_factories_do_not_check_value_witness :
  let o : Options := {[ "value" := JSString "text" ]} in
  o !! "value" = Some (JSString "text") ∧
  Field.Boolean counter_uuid4 (Some o) 0 =
    (Return (ValueField {| undoable := JSBoolean true;
                           description := JSString "";
                           uuid := "u" |} (JSString "text")), 1).
Proof.
  intros o. split; [reflexivity|].
  rewrite (proj1 (typed_factories_do_not_check_value counter_uuid4 o
                    (JSString "text") 0 eq_refl)).
  vm_compute; reflexivity.
Defined.

Lemma identities_are_the_tokens_in_order_witness :
  let cs := [Create CallNumber None; Read 0 MValue;
             Create NewMapField (Some ∅); Create CallText None] in
  forallb call_ok cs = true ∧
  uuid ∘ base_of <$> heap (run counter_uuid4 cs {| heap := []; rng := 0 |}) =
    ["u"; "uu"; "uuu"].
Proof.
  intros cs. split; [reflexivity|].
  rewrite (identities_are_the_tokens_in_order counter_uuid4 cs
             {| heap := []; rng := 0 |} eq_refl).
  reflexivity.
Defined.

(** ** Identities *)

Section IdentityClaims.

Context {Rng : Type} (uuid4 : Rng → string * Rng).



End IdentityClaims.






(** ** The store: no call of this layer writes to an object that exists *)

Section StoreFrame.

Context {Rng : Type} (uuid4 : Rng → string * Rng).

Import Store.
Local Open Scope nat_scope.

Lemma frame_ret {A} (n : nat) (a : A) : frame (Rng:=Rng) n (ret a).
Proof. by intros h Hn. Qed.

Lemma frame_throw {A} (n : nat) (e : JSError) :
  frame (Rng:=Rng) n (throw (A:=A) e).
Proof. by intros h Hn. Qed.

Lemma frame_bind {A B} (n : nat) (m : H A) (k : A → H B) :
  frame (Rng:=Rng) n m → (∀ a, frame n (k a)) → frame n (bind m k).
Proof.
  intros Hm Hk h Hn. unfold bind.
  destruct (Hm h Hn) as [Hlen Htake].
  destruct (m h) as [[a|e] h']; simpl in *; [|done].
  destruct (Hk a h' Hlen) as [Hlen' Htake'].
  split; [done|]. by rewrite Htake'.
Qed.

Lemma frame_alloc (n : nat) (o : Obj) : frame (Rng:=Rng) n (alloc o).
Proof.
  intros h Hn. simpl. rewrite length_app. split; [lia|].
  by rewrite take_app_le.
Qed.

Lemma frame_uuid4 (n : nat) : frame n (UUID_uuid4 uuid4).
Proof. intros h Hn. unfold UUID_uuid4. by destruct (uuid4 (source h)). Qed.

(** The one write of the file: it keeps what is below its target. *)
Lemma frame_assign (n l : nat) (k : string) (v : Val) :
  n ≤ l → frame (Rng:=Rng) n (assign l k v).
Proof.
  intros Hl h Hn. simpl. rewrite length_alter. split; [done|].
  by apply take_alter_ge.
Qed.

Lemma frame_member (n : nat) (a : Arg) (k : string) :
  frame (Rng:=Rng) n (member a k).
Proof.
  intros h Hn. unfold member.
  destruct a as [| |l]; [done|done|]. by destruct (objects h !! l).
Qed.

Lemma frame_default_param (n : nat) (a : Arg) :
  frame (Rng:=Rng) n (default_param a).
Proof.
  destruct a; simpl; [|apply frame_ret..].
  apply frame_bind; [apply frame_alloc|]. intros l. apply frame_ret.
Qed.

Lemma frame_literal (n : nat) (d : gmap string Val) (a : Arg) :
  frame (Rng:=Rng) n (literal d a).
Proof. intros h Hn. unfold literal. by apply frame_alloc. Qed.

(** The constructors write to [this] and to nothing else. *)
Lemma frame_BaseField (n this : nat) (a : Arg) :
  n ≤ this → frame n (BaseField_constructor uuid4 this a).
Proof.
  intros Hthis. unfold BaseField_constructor.
  repeat first
    [ apply frame_default_param | apply frame_uuid4 | apply frame_literal
    | apply frame_member | by apply frame_assign
    | apply frame_bind; [|intros ?] ].
Qed.

Lemma frame_ListField (n this : nat) (a : Arg) :
  n ≤ this → frame n (ListField_constructor uuid4 this a).
Proof.
  intros Hthis. apply frame_bind; [apply frame_default_param|].
  intros ?. by apply frame_BaseField.
Qed.

Lemma frame_MapField (n this : nat) (a : Arg) :
  n ≤ this → frame n (MapField_constructor uuid4 this a).
Proof.
  intros Hthis. apply frame_bind; [apply frame_default_param|].
  intros ?. by apply frame_BaseField.
Qed.

Lemma frame_TextField (n this : nat) (a : Arg) :
  n ≤ this → frame n (TextField_constructor uuid4 this a).
Proof.
  intros Hthis. apply frame_bind; [apply frame_default_param|].
  intros ?. by apply frame_BaseField.
Qed.

Lemma frame_ValueField (n this : nat) (a : Arg) :
  n ≤ this → frame n (ValueField_constructor uuid4 this a).
Proof.
  intros Hthis. apply frame_bind; [by apply frame_BaseField|].
  intros ?. apply frame_bind; [apply frame_member|].
  intros ?. by apply frame_assign.
Qed.

(** [new] allocates [this] after the objects there are, so the
    constructor's writes fall outside them. *)
Lemma frame_new (n : nat) (c : Class) (constructor : nat → Arg → H unit)
    (a : Arg) :
  (∀ this, n ≤ this → frame (Rng:=Rng) n (constructor this a)) →
  frame n (new c constructor a).
Proof.
  intros Hc h Hn.
  assert (new c constructor a h =
          bind (constructor (length (objects h)) a)
               (λ _, ret (length (objects h)))
               {| objects := objects h ++ [mkObj c ∅]; source := source h |})
    as -> by reflexivity.
  assert (n ≤ length (objects h ++ [mkObj c ∅])) as Hn'
    by (rewrite length_app; lia).
  pose proof (frame_bind n (constructor (length (objects h)) a)
                (λ _, ret (length (objects h))) (Hc _ Hn)
                (λ _, frame_ret n _)
                {| objects := objects h ++ [mkObj c ∅]; source := source h |}
                Hn') as [Hlen Htake].
  split; [exact Hlen|]. rewrite Htake. simpl. by rewrite take_app_le.
Qed.

Lemma frame_construct (n : nat) (c : Ctor) (a : Arg) :
  frame n (construct uuid4 c a).
Proof.
  destruct c; simpl;
    unfold Boolean, Number, String, List, Map, Text, Value;
    repeat first
      [ by apply frame_ListField | by apply frame_MapField
      | by apply frame_TextField | by apply frame_ValueField
      | apply frame_default_param | apply frame_literal
      | apply frame_new; intros ? ?
      | apply frame_bind; [|intros ?] ].
Qed.

(** The objects there were are a prefix of the objects there are. *)
Lemma exec_prefix (c : Call) (h : Heap Rng) :
  take (length (objects h)) (objects (exec uuid4 c h).2) = objects h.
Proof.
  destruct c as [k a|l m]; simpl.
  - destruct (frame_construct (length (objects h)) k (resolve h a) h)
      as [_ Htake]; [done|].
    destruct (construct uuid4 k (resolve h a) h) as [[l|e] h'];
      simpl in *; by rewrite Htake, take_ge.
  - destruct (objects h !! l); simpl; by rewrite take_ge.
Qed.

Lemma exec_keeps (c : Call) (h : Heap Rng) (l : nat) (o : Obj) :
  objects h !! l = Some o → objects (exec uuid4 c h).2 !! l = Some o.
Proof.
  intros Hl. rewrite <- (exec_prefix c h) in Hl.
  by apply lookup_take_Some in Hl as [Hl _].
Qed.

Lemma exec_all_keeps (cs : list Call) (h : Heap Rng) (l : nat) (o : Obj) :
  objects h !! l = Some o → objects (exec_all uuid4 cs h) !! l = Some o.
Proof.
  revert h. induction cs as [|c cs IH]; intros h Hl; [done|].
  apply IH. by apply exec_keeps.
Qed.

End StoreFrame.

(** ** The store: what construction builds *)

Section StoreEval.

Context {Rng : Type} (uuid4 : Rng → string * Rng).

Import Store.
Local Open Scope nat_scope.

Lemma bind_return {A B} (m : H A) (k : A → H B) (h h' : Heap Rng) (a : A) :
  m h = (Return a, h') → bind m k h = k a h'.
Proof. intros Hm. unfold bind. by rewrite Hm. Qed.

Lemma bind_thrown {A B} (m : H A) (k : A → H B) (h h' : Heap Rng)
    (e : JSError) :
  m h = (Throw e, h') → bind m k h = (Throw e, h').
Proof. intros Hm. unfold bind. by rewrite Hm. Qed.

Lemma assign_this (pre post : list Obj) (o : Obj) (src : Rng) (k : string)
    (v : Val) :
  assign (length pre) k v (mkHeap (pre ++ o :: post) src) =
    (Return (),
     mkHeap (pre ++ mkObj (class o) (<[k := v]> (props o)) :: post) src).
Proof.
  unfold assign. simpl. do 2 f_equal.
  induction pre as [|x pre IH]; [done|]. simpl. f_equal. exact IH.
Qed.

Lemma member_object (objs : list Obj) (src : Rng) (l : nat) (x : Obj)
    (k : string) :
  objs !! l = Some x →
  member (Object l) k (mkHeap objs src) = (Return (read x k), mkHeap objs src).
Proof. intros Hl. unfold member. simpl. by rewrite Hl. Qed.

(** An object other than [this] is as it was while [this] is written. *)
Lemma arg_props_this (pre post : list Obj) (o o' : Obj) (a : Arg) :
  a ≠ Object (length pre) →
  arg_props (pre ++ o' :: post) a = arg_props (pre ++ o :: post) a.
Proof.
  destruct a as [| |l]; [done|done|]. simpl. intros Hne.
  assert (l ≠ length pre) as Hl' by congruence.
  f_equal.
  destruct (decide (l < length pre)) as [Hlt|Hge].
  - by rewrite !lookup_app_l.
  - rewrite !lookup_app_r by lia.
    destruct (l - length pre) as [|i] eqn:Hi; [lia|]. done.
Qed.

(** An object that is there is where it was when others are added. *)
Lemma arg_props_extend (objs extra : list Obj) (a : Arg) :
  allocated objs a → arg_props (objs ++ extra) a = arg_props objs a.
Proof.
  destruct a as [| |l]; [done|done|]. simpl. intros Hl.
  by rewrite lookup_app_l.
Qed.

Lemma read_defaults (p : gmap string Val) :
  read (mkObj PlainObject
          (p ∪ {[ "undoable" := VBoolean true; "description" := VString "" ]}))
       "undoable" = default (VBoolean true) (p !! "undoable") ∧
  read (mkObj PlainObject
          (p ∪ {[ "undoable" := VBoolean true; "description" := VString "" ]}))
       "description" = default (VString "") (p !! "description").
Proof.
  unfold read; simpl. rewrite !lookup_union.
  destruct (p !! "undoable"), (p !! "description"); simpl; done.
Qed.

Lemma lookup_temporary (pre post : list Obj) (o o' x : Obj) :
  (pre ++ o :: post ++ [x]) !! length (pre ++ o' :: post) = Some x.
Proof.
  rewrite length_app. simpl.
  rewrite lookup_app_r by lia.
  replace (length pre + S (length post) - length pre) with (S (length post))
    by lia.
  simpl. rewrite lookup_app_r by lia.
  by replace (length post - length post) with 0 by lia.
Qed.

(** [BaseField]'s constructor on an argument that is there. *)
Lemma BaseField_given (pre post : list Obj) (o : Obj) (src : Rng) (a : Arg) :
  a ≠ Omitted →
  a ≠ Object (length pre) →
  BaseField_constructor uuid4 (length pre) a (mkHeap (pre ++ o :: post) src) =
    (Return (),
     mkHeap (pre ++ stamped (arg_props (pre ++ o :: post) a) (uuid4 src).1 o
                 :: post ++
                 [mkObj PlainObject
                    (arg_props (pre ++ o :: post) a ∪
                     {[ "undoable" := VBoolean true;
                        "description" := VString "" ]})])
            (uuid4 src).2).
Proof.
  intros Ha Hthis. unfold BaseField_constructor.
  rewrite (bind_return _ _ _ (mkHeap (pre ++ o :: post) src) a)
    by (by destruct a).
  rewrite (bind_return _ _ _ (mkHeap (pre ++ o :: post) (uuid4 src).2)
             (uuid4 src).1)
    by (unfold UUID_uuid4; simpl; by destruct (uuid4 src)).
  rewrite (bind_return _ _ _ _ _ (assign_this _ _ _ _ _ _)).
  set (p := arg_props (pre ++ o :: post) a).
  set (o1 := mkObj (class o) (<["uuid" := VString (uuid4 src).1]> (props o))).
  set (x := mkObj PlainObject
              (p ∪ {[ "undoable" := VBoolean true;
                      "description" := VString "" ]})).
  rewrite (bind_return _ _ _ (mkHeap (pre ++ o1 :: post ++ [x]) (uuid4 src).2)
             (length (pre ++ o1 :: post))).
  2:{ unfold literal, alloc. simpl.
      rewrite (arg_props_this pre post o o1 a Hthis).
      fold p. fold x. by rewrite <- app_assoc. }
  rewrite (bind_return _ _ _ _ _
             (member_object _ _ _ x _ (lookup_temporary pre post o1 o1 x))).
  rewrite (bind_return _ _ _ _ _ (assign_this _ _ _ _ _ _)).
  set (o2 := mkObj (class o1) _).
  rewrite (bind_return _ _ _ _ _
             (member_object _ _ _ x _ (lookup_temporary pre post o2 o1 x))).
  rewrite assign_this. subst o2 o1 x.
  destruct (read_defaults p) as [-> ->]. reflexivity.
Qed.


Lemma BaseField_omitted (this : nat) (h : Heap Rng) :
  BaseField_constructor uuid4 this Omitted h =
    BaseField_constructor uuid4 this (Object (length (objects h)))
      {| objects := objects h ++ [mkObj PlainObject ∅]; source := source h |}.
Proof. reflexivity. Qed.

(** [BaseField]'s constructor on any argument: [this] is stamped, the
    other objects stay, temporaries are added. *)
Lemma BaseField_eval (pre post : list Obj) (o : Obj) (src : Rng) (a : Arg) :
  allocated (pre ++ o :: post) a →
  a ≠ Object (length pre) →
  ∃ temps,
    BaseField_constructor uuid4 (length pre) a (mkHeap (pre ++ o :: post) src) =
      (Return (),
       mkHeap (pre ++ stamped (arg_props (pre ++ o :: post) a) (uuid4 src).1 o
                   :: post ++ temps)
              (uuid4 src).2).
Proof.
  intros Halloc Hthis.
  assert (a = Omitted ∨ a ≠ Omitted) as [->|Ha] by (destruct a; auto).
  - rewrite BaseField_omitted. simpl.
    rewrite <- app_assoc. simpl.
    rewrite (BaseField_given pre (post ++ [mkObj PlainObject ∅]) o src
               (Object (length (pre ++ o :: post)))).
    + simpl. rewrite (lookup_temporary pre post o o). simpl.
      rewrite <- app_assoc. by eexists.
    + done.
    + rewrite length_app. simpl. intros [=]. lia.
  - rewrite BaseField_given by done. by eexists.
Qed.

Lemma subclass_is_base (this : nat) (a : Arg) (h : Heap Rng) :
  ListField_constructor uuid4 this a h = BaseField_constructor uuid4 this a h ∧
  MapField_constructor uuid4 this a h = BaseField_constructor uuid4 this a h ∧
  TextField_constructor uuid4 this a h = BaseField_constructor uuid4 this a h.
Proof. by destruct a. Qed.

Lemma new_eval (c : Class) (constructor : nat → Arg → H unit) (a : Arg)
    (objs : list Obj) (src : Rng) :
  new c constructor a (mkHeap objs src) =
    bind (constructor (length objs) a) (λ _, ret (length objs))
         (mkHeap (objs ++ [mkObj c ∅]) src).
Proof. reflexivity. Qed.

Lemma allocated_fresh (objs : list Obj) (o : Obj) (a : Arg) :
  allocated objs a →
  allocated (objs ++ [o]) a ∧ a ≠ Object (length objs).
Proof.
  destruct a as [| |l]; simpl; [done|done|]. intros Hl.
  rewrite length_app. simpl. split; [lia|]. intros [=]. lia.
Qed.

(** [new] of a class whose constructor does what [BaseField]'s does. *)
Lemma new_base (c : Class) (constructor : nat → Arg → H unit) (a : Arg)
    (objs : list Obj) (src : Rng) :
  (∀ this h, constructor this a h = BaseField_constructor uuid4 this a h) →
  allocated objs a →
  ∃ temps,
    new c constructor a (mkHeap objs src) =
      (Return (length objs),
       mkHeap (objs ++ stamped (arg_props objs a) (uuid4 src).1 (mkObj c ∅)
                    :: temps)
              (uuid4 src).2).
Proof.
  intros Hc Halloc. rewrite new_eval.
  destruct (allocated_fresh objs (mkObj c ∅) a Halloc) as [Halloc' Hthis].
  destruct (BaseField_eval objs [] (mkObj c ∅) src a Halloc' Hthis)
    as [temps Heval].
  exists temps. erewrite bind_return; [|by rewrite Hc, Heval].
  simpl. by rewrite arg_props_extend.
Qed.

Lemma read_value (o : Obj) :
  read o "value" = default VUndefined (props o !! "value").
Proof.
  unfold read. destruct (props o !! "value"); [done|].
  by destruct (type_getter (class o)).
Qed.

Lemma new_value_object (l : nat) (objs : list Obj) (src : Rng) :
  l < length objs →
  ∃ temps,
    new ValueFieldClass (ValueField_constructor uuid4) (Object l)
        (mkHeap objs src) =
      (Return (length objs),
       mkHeap (objs ++ instance NewValueField (arg_props objs (Object l))
                                (uuid4 src).1 :: temps)
              (uuid4 src).2).
Proof.
  intros Hl. rewrite new_eval. unfold ValueField_constructor.
  destruct (allocated_fresh objs (mkObj ValueFieldClass ∅) (Object l) Hl)
    as [Halloc' Hthis].
  destruct (BaseField_eval objs [] (mkObj ValueFieldClass ∅) src (Object l)
              Halloc' Hthis) as [temps Heval].
  exists temps.
  destruct (lookup_lt_is_Some_2 objs l Hl) as [x Hx].
  erewrite bind_return; [|erewrite bind_return; [|exact Heval]].
  2:{ erewrite bind_return.
      2:{ apply (member_object _ _ l x). simpl.
          rewrite lookup_app_l by done. exact Hx. }
      apply assign_this. }
  simpl. rewrite lookup_app_l, Hx by done. simpl.
  by rewrite read_value.
Qed.

Lemma new_value_missing (a : Arg) (objs : list Obj) (src : Rng) :
  a = Omitted ∨ a = Null →
  ∃ objs',
    new ValueFieldClass (ValueField_constructor uuid4) a (mkHeap objs src) =
      (Throw TypeError, mkHeap objs' (uuid4 src).2).
Proof.
  intros Ha. rewrite new_eval. unfold ValueField_constructor.
  assert (allocated objs a) as Halloc by (by destruct Ha as [-> | ->]).
  destruct (allocated_fresh objs (mkObj ValueFieldClass ∅) a Halloc)
    as [Halloc' Hthis].
  destruct (BaseField_eval objs [] (mkObj ValueFieldClass ∅) src a
              Halloc' Hthis) as [temps Heval].
  eexists.
  erewrite bind_thrown; [reflexivity|].
  erewrite bind_return; [|exact Heval].
  erewrite bind_thrown; [reflexivity|].
  by destruct Ha as [-> | ->].
Qed.


Lemma default_param_spec (a : Arg) (objs : list Obj) (src : Rng) :
  allocated objs a →
  ∃ a' extra,
    default_param a (mkHeap objs src) = (Return a', mkHeap (objs ++ extra) src) ∧
    allocated (objs ++ extra) a' ∧
    arg_props (objs ++ extra) a' = arg_props objs a.
Proof.
  intros Halloc. destruct a as [| |l].
  - exists (Object (length objs)), [mkObj PlainObject ∅].
    split; [reflexivity|]. simpl. rewrite length_app. simpl.
    split; [lia|]. by rewrite list_lookup_middle.
  - exists Null, []. by rewrite app_nil_r.
  - exists (Object l), []. by rewrite app_nil_r.
Qed.

(** [{ value: d, ...options }] in a factory. *)
Lemma literal_spec (d : gmap string Val) (a : Arg) (objs : list Obj)
    (src : Rng) :
  literal d a (mkHeap objs src) =
    (Return (length objs),
     mkHeap (objs ++ [mkObj PlainObject (arg_props objs a ∪ d)]) src).
Proof. reflexivity. Qed.

Lemma instance_defaulted (c : Ctor) (d : Val) (p : gmap string Val)
    (t : string) :
  stored_value c p = Some (default d (p !! "value")) →
  class_of c = ValueFieldClass →
  instance NewValueField (p ∪ {[ "value" := d ]}) t = instance c p t.
Proof.
  intros Hv Hc. unfold instance, stamped. rewrite Hv, Hc. simpl.
  rewrite !lookup_union, lookup_singleton_eq.
  rewrite !lookup_singleton_ne by done.
  destruct (p !! "value"), (p !! "undoable"), (p !! "description"); done.
Qed.

Lemma factory_value_spec (c : Ctor) (d : Val) (a : Arg) (objs : list Obj)
    (src : Rng) :
  stored_value c (arg_props objs a) =
    Some (default d (arg_props objs a !! "value")) →
  class_of c = ValueFieldClass →
  allocated objs a →
  ∃ l objs',
    bind (default_param a)
         (λ options,
            bind (literal {[ "value" := d ]} options)
                 (λ given, new ValueFieldClass (ValueField_constructor uuid4)
                               (Object given)))
         (mkHeap objs src) =
      (Return l, mkHeap objs' (uuid4 src).2) ∧
    objs' !! l = Some (instance c (arg_props objs a) (uuid4 src).1).
Proof.
  intros Hv Hc Halloc.
  destruct (default_param_spec a objs src Halloc)
    as (a' & extra & Hd & Halloc' & Hprops).
  erewrite bind_return; [|exact Hd].
  erewrite bind_return; [|apply literal_spec].
  rewrite Hprops.
  set (given := mkObj PlainObject (arg_props objs a ∪ {[ "value" := d ]})).
  destruct (new_value_object (length (objs ++ extra))
              ((objs ++ extra) ++ [given]) src) as [temps Hnew].
  { rewrite (length_app (objs ++ extra)). simpl. lia. }
  rewrite Hnew. eexists _, _. split; [reflexivity|].
  rewrite list_lookup_middle by done. f_equal.
  simpl arg_props. rewrite list_lookup_middle by done. simpl.
  by apply instance_defaulted.
Qed.

Lemma factory_base_spec (c : Ctor) (cls : Class)
    (constructor : nat → Arg → H unit) (a : Arg) (objs : list Obj)
    (src : Rng) :
  (∀ this a h, constructor this a h = BaseField_constructor uuid4 this a h) →
  instance c (arg_props objs a) (uuid4 src).1 =
    stamped (arg_props objs a) (uuid4 src).1 (mkObj cls ∅) →
  allocated objs a →
  ∃ l objs',
    bind (default_param a) (λ options, new cls constructor options)
         (mkHeap objs src) =
      (Return l, mkHeap objs' (uuid4 src).2) ∧
    objs' !! l = Some (instance c (arg_props objs a) (uuid4 src).1).
Proof.
  intros Hb Hi Halloc.
  destruct (default_param_spec a objs src Halloc)
    as (a' & extra & Hd & Halloc' & Hprops).
  erewrite bind_return; [|exact Hd].
  destruct (new_base cls constructor a' (objs ++ extra) src (λ this h, Hb this a' h)
              Halloc') as [temps Hnew].
  rewrite Hnew, Hprops. eexists _, _. split; [reflexivity|].
  by rewrite list_lookup_middle, Hi.
Qed.

(** Every entry point, on an argument that is there when it is an
    object: either [options.value] is read off [undefined] or [null] and
    a [TypeError] is thrown, after one draw, or a reference is returned
    to the instance of the closed form, after one draw. *)
Lemma construct_spec (c : Ctor) (a : Arg) (objs : list Obj) (src : Rng) :
  allocated objs a →
  if throws c a
  then ∃ objs', construct uuid4 c a (mkHeap objs src) =
                  (Throw TypeError, mkHeap objs' (uuid4 src).2)
  else ∃ l objs', construct uuid4 c a (mkHeap objs src) =
                    (Return l, mkHeap objs' (uuid4 src).2) ∧
                  objs' !! l =
                    Some (instance c (arg_props objs a) (uuid4 src).1).
Proof.
  intros Halloc.
  assert (∀ cls constructor,
            (∀ this a h, constructor this a h =
                         BaseField_constructor uuid4 this a h) →
            ∃ l objs', new cls constructor a (mkHeap objs src) =
                         (Return l, mkHeap objs' (uuid4 src).2) ∧
                       objs' !! l =
                         Some (stamped (arg_props objs a) (uuid4 src).1
                                       (mkObj cls ∅))) as Hnew.
  { intros cls constructor Hb.
    destruct (new_base cls constructor a objs src (λ this h, Hb this a h)
                Halloc) as [temps ->].
    eexists _, _. split; [reflexivity|]. by rewrite list_lookup_middle. }
  pose proof (λ this a h, proj1 (subclass_is_base this a h)) as HL.
  pose proof (λ this a h, proj1 (proj2 (subclass_is_base this a h))) as HM.
  pose proof (λ this a h, proj2 (proj2 (subclass_is_base this a h))) as HT.
  destruct c; simpl construct;
    try (unfold Boolean, Number, String;
         apply (factory_value_spec _ _ a objs src); done);
    try (unfold List, Map, Text;
         first [ apply (factory_base_spec _ _ _ a objs src HL); done
               | apply (factory_base_spec _ _ _ a objs src HM); done
               | apply (factory_base_spec _ _ _ a objs src HT); done ]);
    try (first [ apply (Hnew _ _ HL) | apply (Hnew _ _ HM)
               | apply (Hnew _ _ HT) ]).
  - destruct a as [| |l]; simpl.
    + destruct (new_value_missing Omitted objs src) as [objs' ->]; eauto.
    + destruct (new_value_missing Null objs src) as [objs' ->]; eauto.
    + destruct (new_value_object l objs src Halloc) as [temps ->].
      eexists _, _. split; [reflexivity|]. by rewrite list_lookup_middle.
  - unfold Value. destruct a as [| |l]; simpl.
    + destruct (new_value_missing Omitted objs src) as [objs' ->]; eauto.
    + destruct (new_value_missing Null objs src) as [objs' ->]; eauto.
    + destruct (new_value_object l objs src Halloc) as [temps ->].
      eexists _, _. split; [reflexivity|]. by rewrite list_lookup_middle.
Qed.

End StoreEval.

(** ** The store: immutability, errors, agreement with the first model *)

Section StoreClaims.

Context {Rng : Type} (uuid4 : Rng → string * Rng).

Local Open Scope nat_scope.

Lemma perform_keeps (e : Store.Event) (h : Store.Heap Rng) (l : nat)
    (o : Store.Obj) :
  Store.objects h !! l = Some o →
  Store.spares l e = true →
  Store.objects (Store.perform uuid4 e h) !! l = Some o.
Proof.
  intros Hl Hs. destruct e as [c|l' k v]; simpl.
  - by apply exec_keeps.
  - simpl in Hs. apply negb_true_iff, Nat.eqb_neq in Hs.
    unfold Store.write.
    destruct (Store.objects h !! l') as [o'|]; [|done].
    destruct (Store.type_getter (Store.class o')); [case_decide; [done|]|];
      simpl; by rewrite list_lookup_alter_ne.
Qed.

(** C6 (as amended): no call of this layer writes to an object that
    exists: the constructors assign to the instance they were just given
    and to no other object, the factories allocate their literals, and
    the getters assign nothing.  So through any sequence of calls of this
    layer, and of caller assignments to other objects, a field instance
    keeps its class and its properties, and every member read ([type],
    [undoable], [description], [uuid], [value]) returns what it returned
    before; a read leaves the store as it was. *)
Theorem fields_are_never_written (es : list Store.Event)
    (h : Store.Heap Rng) (l : nat) (o : Store.Obj) :
  Store.objects h !! l = Some o →
  forallb (Store.spares l) es = true →
  Store.objects (Store.perform_all uuid4 es h) !! l = Some o ∧
  ∀ m, (Store.exec uuid4 (Store.Read l m)
          (Store.perform_all uuid4 es h)).1 =
         Return (Store.Got (Store.read o (Store.member_key m))) ∧
       (Store.exec uuid4 (Store.Read l m) h).1 =
         Return (Store.Got (Store.read o (Store.member_key m))) ∧
       (Store.exec uuid4 (Store.Read l m) h).2 = h.
Proof.
  intros Hl Hes.
  assert (Store.objects (Store.perform_all uuid4 es h) !! l = Some o) as Hl'.
  { revert h Hl. induction es as [|e es IH]; intros h Hl; [done|].
    simpl in Hes. apply andb_true_iff in Hes as [He Hes].
    apply (IH Hes). by apply perform_keeps. }
  split; [done|]. intros m. simpl. by rewrite Hl, Hl'.
Qed.


(** X1: on an argument the caller can hold, construction throws in these
    cases only: [new ValueField] or [Field.Value] called with no
    argument, with [undefined] or with [null], where [options.value]
    is read off a value that has no members.  What is thrown is a
    [TypeError].  Every other call, [null] passed to any other entry
    point included, returns a reference to a new object of the class of
    the entry point. *)
Theorem construction_throws_only_on_missing_options (c : Ctor)
    (a : Store.Arg) (h : Store.Heap Rng) :
  Store.allocated (Store.objects h) a →
  match (Store.construct uuid4 c a h).1 with
  | Return l =>
      ¬ ((c = NewValueField ∨ c = CallValue) ∧
         (a = Store.Omitted ∨ a = Store.Null)) ∧
      ∃ o, Store.objects (Store.construct uuid4 c a h).2 !! l = Some o ∧
           Store.class o = Store.class_of c
  | Throw e =>
      (c = NewValueField ∨ c = CallValue) ∧
      (a = Store.Omitted ∨ a = Store.Null) ∧
      e = TypeError
  end.
Proof.
  intros Halloc. destruct h as [objs src].
  pose proof (construct_spec uuid4 c a objs src Halloc) as Hspec.
  destruct (Store.throws c a) eqn:Hthrows.
  - destruct Hspec as [objs' ->]. simpl.
    destruct c, a; try discriminate Hthrows; auto.
  - destruct Hspec as (l & objs' & -> & Hl). simpl. split.
    + intros [[-> | ->] [-> | ->]]; discriminate Hthrows.
    + eexists. split; [exact Hl|].
      unfold Store.instance.
      by destruct (Store.stored_value c (Store.arg_props objs a)).
Qed.

Lemma reads_default (θ : Store.Val → JSValue) (d : Store.Val) (d' : JSValue)
    (x : option Store.Val) :
  θ d = d' → θ (default d x) = default d' (θ <$> x).
Proof. intros <-. by destruct x. Qed.

(** An instance of the closed form, read through [θ], is the field the
    first model builds from the options read through [θ]. *)
Lemma view_instance (θ : Store.Val → JSValue) (c : Ctor)
    (p : gmap string Store.Val) (t : string) (f : Field) :
  Store.reads_primitives θ →
  type f = kind_of c →
  base_of f = base_for (θ <$> p) t →
  value_of f = value_for c (θ <$> p) →
  Store.view θ (Store.instance c p t) = Some f.
Proof.
  intros (Hu & Hb & Hn & Hs) Ht Hbase Hval.
  assert (∃ f', Store.view θ (Store.instance c p t) = Some f' ∧
                type f' = kind_of c ∧
                base_of f' = base_for (θ <$> p) t ∧
                value_of f' = value_for c (θ <$> p)) as (f' & -> & Ht' & Hb' & Hv').
  { unfold base_for, value_for, prop. rewrite !lookup_fmap.
    destruct c; unfold Store.instance, Store.stamped, Store.view, Store.read;
      simpl; rewrite ?lookup_insert_eq, ?lookup_insert_ne by done;
      rewrite ?lookup_insert_eq, ?lookup_insert_ne by done;
      rewrite ?lookup_insert_eq, ?lookup_insert_ne by done;
      rewrite ?lookup_insert_eq;
      eexists; (split; [reflexivity|]); simpl;
      rewrite ?(reads_default θ _ _ _ (Hb true)),
              ?(reads_default θ _ _ _ (Hb false)),
              ?(reads_default θ _ _ _ (Hs "")),
              ?(reads_default θ _ _ _ (Hn 0%Z)),
              ?(reads_default θ _ _ _ Hu); done. }
  f_equal. apply field_ext; congruence.
Qed.

(** X11: the two models agree.  On an omitted argument or an options
    object, an entry point of the store model throws when the first
    model throws, with the same error, and otherwise returns a reference
    to an instance that, its values read through [θ], is the field the
    first model returns for the options read through [θ]; both leave the
    identity source in the same state. *)
Theorem store_agrees_with_values (θ : Store.Val → JSValue) (c : Ctor)
    (a : Store.Arg) (h : Store.Heap Rng) :
  Store.reads_primitives θ →
  Store.allocated (Store.objects h) a →
  a ≠ Store.Null →
  match construct uuid4 c (Store.view_arg θ (Store.objects h) a)
          (Store.source h) with
  | (Return f, g) =>
      ∃ l h', Store.construct uuid4 c a h = (Return l, h') ∧
              Store.source h' = g ∧
              Store.objects h' !! l ≫= Store.view θ = Some f
  | (Throw e, g) =>
      ∃ h', Store.construct uuid4 c a h = (Throw e, h') ∧
            Store.source h' = g
  end.
Proof.
  intros Hθ Halloc Hnull. destruct h as [objs src]. simpl.
  pose proof (construct_spec uuid4 c a objs src Halloc) as Hspec.
  pose proof (construct_cases uuid4 c (Store.view_arg θ objs a) src) as Hcases.
  assert (Store.throws c a =
          negb (argument_given c (Store.view_arg θ objs a))) as Hthrows
    by (by destruct c, a).
  rewrite Hthrows in Hspec.
  destruct (argument_given c (Store.view_arg θ objs a)) eqn:Hgiven; simpl in *.
  - destruct Hspec as (l & objs' & Hstore & Hl).
    assert (∃ f, construct uuid4 c (Store.view_arg θ objs a) src =
                   (Return f, (uuid4 src).2) ∧
                 Store.view θ (Store.instance c (Store.arg_props objs a)
                                 (uuid4 src).1) = Some f) as (f & -> & Hview).
    { destruct a as [| |l0]; [|done|]; simpl.
      - rewrite construct_omitted by done.
        destruct (construct_object uuid4 c ∅ src) as (f & Hf & Hb & Ht & Hv).
        exists f. split; [done|].
        apply view_instance; rewrite ?fmap_empty; done.
      - destruct (construct_object uuid4 c
                    (θ <$> from_option Store.props ∅ (objs !! l0)) src)
          as (f & Hf & Hb & Ht & Hv).
        exists f. split; [done|]. by apply view_instance. }
    exists l, (Store.mkHeap objs' (uuid4 src).2).
    split; [done|]. split; [done|]. simpl. rewrite Hl. exact Hview.
  - destruct Hspec as [objs' Hstore]. rewrite Hcases.
    by exists (Store.mkHeap objs' (uuid4 src).2).
Qed.

End StoreClaims.

(** ** The store on concrete inputs *)

(** C6 (as stated) fails: [readonly] is checked by the compiler only.
    After [Field.Boolean()] returns, [undoable] reads [true]; an
    assignment by the caller follows, and it reads [false]. *)
Lemma readonly_is_not_enforced :
  let created :=
    Store.exec counter_uuid4 (Store.Create CallBoolean Store.Omitted)
      (Store.mkHeap [] 0) in
  created.1 = Return (Store.Ref 2) ∧
  (Store.exec counter_uuid4 (Store.Read 2 MUndoable) created.2).1 =
    Return (Store.Got (Store.VBoolean true)) ∧
  (Store.exec counter_uuid4 (Store.Read 2 MUndoable)
     (Store.perform counter_uuid4
        (Store.Write 2 "undoable" (Store.VBoolean false)) created.2)).1 =
    Return (Store.Got (Store.VBoolean false)).
Proof. repeat split; vm_compute; reflexivity. Qed.

(** A value field that holds a reference to an array of the caller: the
    caller creates a field, writes to the array, and calls [Value(null)],
    which throws; the field is as it was and [value] is the same
    reference. *)
Lemma fields_are_never_written_witness :
  let array := Store.mkObj Store.PlainObject {[ "0" := Store.VNumber 1 ]} in
  let field := Store.mkObj Store.ValueFieldClass
                 {[ "uuid" := Store.VString "u";
                    "undoable" := Store.VBoolean true;
                    "description" := Store.VString "";
                    "value" := Store.VRef 0 ]} in
  let h := Store.mkHeap [array; field] 1 in
  let es := [Store.Layer (Store.Create CallList Store.Omitted);
             Store.Write 0 "0" (Store.VNumber 7);
             Store.Layer (Store.Create CallValue Store.Null)] in
  Store.objects h !! 1 = Some field ∧
  forallb (Store.spares 1) es = true ∧
  Store.objects (Store.perform_all counter_uuid4 es h) !! 1 = Some field ∧
  (Store.exec counter_uuid4 (Store.Read 1 MValue)
     (Store.perform_all counter_uuid4 es h)).1 =
    Return (Store.Got (Store.VRef 0)).
Proof.
  intros array field h es.
  split; [reflexivity|]. split; [reflexivity|].
  destruct (fields_are_never_written counter_uuid4 es h 1 field
              eq_refl eq_refl) as [Hsame Hread].
  split; [exact Hsame|]. exact (proj1 (Hread MValue)).
Defined.


Lemma construction_throws_only_on_missing_options_witness :
  Store.allocated (Store.objects (Store.mkHeap [] 0)) Store.Null ∧
  match (Store.construct counter_uuid4 NewValueField Store.Null
           (Store.mkHeap [] 0)).1 with
  | Return l =>
      ¬ ((NewValueField = NewValueField ∨ NewValueField = CallValue) ∧
         (Store.Null = Store.Omitted ∨ Store.Null = Store.Null)) ∧
      ∃ o, Store.objects (Store.construct counter_uuid4 NewValueField
                            Store.Null (Store.mkHeap [] 0)).2 !! l = Some o ∧
           Store.class o = Store.class_of NewValueField
  | Throw e =>
      (NewValueField = NewValueField ∨ NewValueField = CallValue) ∧
      (Store.Null = Store.Omitted ∨ Store.Null = Store.Null) ∧
      e = TypeError
  end.
Proof.
  split; [exact I|].
  apply (construction_throws_only_on_missing_options counter_uuid4
           NewValueField Store.Null (Store.mkHeap [] 0)).
  exact I.
Defined.

(** [new ValueField(null)] and [new ListField(null)] on the counter
    source. *)
Example ValueField_null :
  (Store.construct counter_uuid4 NewValueField Store.Null
     (Store.mkHeap [] 0)).1 = Throw TypeError ∧
  (Store.construct counter_uuid4 NewListField Store.Null
     (Store.mkHeap [] 0)).1 = Return 0.
Proof. split; vm_compute; reflexivity. Qed.

Lemma store_agrees_with_values_witness :
  let options := Store.mkObj Store.PlainObject
                   {[ "description" := Store.VString "n" ]} in
  let h := Store.mkHeap [options] 0 in
  Store.reads_primitives Store.flat ∧
  Store.allocated (Store.objects h) (Store.Object 0) ∧
  Store.Object 0 ≠ Store.Null ∧
  ∃ l h', Store.construct counter_uuid4 CallNumber (Store.Object 0) h =
            (Return l, h') ∧
          Store.source h' = 1 ∧
          Store.objects h' !! l ≫= Store.view Store.flat =
            Some (ValueField {| undoable := JSBoolean true;
                                description := JSString "n";
                                uuid := "u" |} (JSNumber 0)).
Proof.
  intros options h.
  assert (Store.reads_primitives Store.flat) as Hflat by (by repeat split).
  assert (Store.allocated (Store.objects h) (Store.Object 0)) as Halloc
    by (simpl; lia).
  split; [exact Hflat|]. split; [exact Halloc|]. split; [discriminate|].
  pose proof (store_agrees_with_values counter_uuid4 Store.flat CallNumber
                (Store.Object 0) h Hflat Halloc ltac:(discriminate)) as Hagree.
  assert (construct counter_uuid4 CallNumber
            (Store.view_arg Store.flat (Store.objects h) (Store.Object 0))
            (Store.source h) =
          (Return (ValueField {| undoable := JSBoolean true;
                                 description := JSString "n";
                                 uuid := "u" |} (JSNumber 0)), 1)) as Hvalue
    by (vm_compute; reflexivity).
  rewrite Hvalue in Hagree. exact Hagree.
Defined.
